(** * The plot layout core of plotinum ([plot/plot.go]), embedded in Rocq

    The development follows the Go source function by function.

    - [Float64] models Go's [float64] (and [vg.Length], which is a
      [float64]): exact rationals extended with the IEEE-754 special values
      [+Inf], [-Inf] and [NaN].  Rounding, overflow and the sign of zero are
      abstracted away; the special values and the comparisons follow IEEE-754.
    - [Point], [Rect], [DrawArea], [GlyphBox], [Axis] are the structs.
    - [Add], [GlyphBoxes], [leftMost], [rightMost], [bottomMost], [topMost],
      [padX], [padY], [Draw] and [Save] are the functions of [plot.go].
    - Code of the package that lives in other files ([draw.go], [axis.go],
      [legend.go], the [vg] back ends) is either modelled from the
      specification (and marked so) or taken as an operation of the
      [External] interface. *)

From Stdlib Require Import QArith Qcanon List String Ascii Bool Lia Lqa PeanoNat.
Import ListNotations.

Open Scope Qc_scope.

(* ================================================================== *)
(** * Part I: the embedding *)
(* ================================================================== *)

(** ** float64 *)

Module Float64.

(** A [float64]: a finite value or one of the three IEEE-754 specials. *)
Inductive float64 : Type :=
| Fin (q : Qc)
| PInf
| NInf
| NaN.

Definition Qcltb (x y : Qc) : bool :=
  match x ?= y with Lt => true | _ => false end.

Definition Qceqb (x y : Qc) : bool := Qeq_bool x y.

Definition zero : float64 := Fin 0.
Definition one : float64 := Fin 1.

(** [math.IsNaN], and the test for a finite value. *)
Definition IsNaN (x : float64) : bool :=
  match x with NaN => true | _ => false end.

Definition is_finite (x : float64) : bool :=
  match x with Fin _ => true | _ => false end.

(** The sign of a value, as a comparison with zero ([Eq] for zero; the sign
    of [NaN] is never looked at). *)
Definition sign (x : float64) : comparison :=
  match x with
  | Fin q => q ?= 0
  | PInf => Gt
  | NInf => Lt
  | NaN => Eq
  end.

Definition fopp (x : float64) : float64 :=
  match x with
  | Fin q => Fin (- q)
  | PInf => NInf
  | NInf => PInf
  | NaN => NaN
  end.

(** [x + y] *)
Definition fadd (x y : float64) : float64 :=
  match x, y with
  | NaN, _ | _, NaN => NaN
  | PInf, NInf | NInf, PInf => NaN
  | PInf, _ | _, PInf => PInf
  | NInf, _ | _, NInf => NInf
  | Fin a, Fin b => Fin (a + b)
  end.

(** [x - y] *)
Definition fsub (x y : float64) : float64 := fadd x (fopp y).

(** [x * y]: an infinity times zero is [NaN]. *)
Definition fmul (x y : float64) : float64 :=
  match x, y with
  | NaN, _ | _, NaN => NaN
  | Fin a, Fin b => Fin (a * b)
  | _, _ =>
      match sign x, sign y with
      | Eq, _ | _, Eq => NaN
      | Lt, Lt | Gt, Gt => PInf
      | _, _ => NInf
      end
  end.

(** [x / y]: Go does not fault on a zero divisor, the quotient is an
    infinity of the dividend's sign, or [NaN] for [0/0]. *)
Definition fdiv (x y : float64) : float64 :=
  match x, y with
  | NaN, _ | _, NaN => NaN
  | Fin a, Fin b =>
      if Qceqb b 0
      then match a ?= 0 with Eq => NaN | Gt => PInf | Lt => NInf end
      else Fin (a / b)
  | Fin _, _ => Fin 0
  | _, Fin b => match b ?= 0 with Lt => fopp x | _ => x end
  | _, _ => NaN
  end.

(** [x < y] and [x == y]; every comparison with [NaN] is false. *)
Definition flt (x y : float64) : bool :=
  match x, y with
  | NaN, _ | _, NaN => false
  | Fin a, Fin b => Qcltb a b
  | NInf, NInf => false
  | NInf, _ => true
  | PInf, _ => false
  | Fin _, PInf => true
  | Fin _, NInf => false
  end.

Definition feq (x y : float64) : bool :=
  match x, y with
  | Fin a, Fin b => Qceqb a b
  | PInf, PInf | NInf, NInf => true
  | _, _ => false
  end.

(** [x <= y], [x > y], [x >= y] *)
Definition fle (x y : float64) : bool := flt x y || feq x y.
Definition fgt (x y : float64) : bool := flt y x.
Definition fge (x y : float64) : bool := fle y x.

(** Go's [math.Min]: the cases are tried in the order of the library's
    source, [-Inf] first, [NaN] second, so [Min(NaN, -Inf)] is [-Inf]. *)
Definition math_Min (x y : float64) : float64 :=
  match x, y with
  | NInf, _ | _, NInf => NInf
  | NaN, _ | _, NaN => NaN
  | _, _ => if flt x y then x else y
  end.

(** Go's [math.Max]: [+Inf] first, [NaN] second. *)
Definition math_Max (x y : float64) : float64 :=
  match x, y with
  | PInf, _ | _, PInf => PInf
  | NaN, _ | _, NaN => NaN
  | _, _ => if fgt x y then x else y
  end.

(** Decidable equality of the model values. *)
Definition eqb (x y : float64) : bool :=
  match x, y with
  | Fin a, Fin b => Qceqb a b
  | PInf, PInf | NInf, NInf | NaN, NaN => true
  | _, _ => false
  end.

(** An integer as a [float64]. *)
Definition ofZ (z : Z) : float64 := Fin (Q2Qc (inject_Z z)).

(** A fraction [n/d] as a [float64]. *)
Definition ofQ (q : Q) : float64 := Fin (Q2Qc q).

End Float64.

Import Float64.

Arguments Float64.Qcltb : simpl never.
Arguments Float64.Qceqb : simpl never.

Declare Scope f64_scope.
Delimit Scope f64_scope with f64.
Bind Scope f64_scope with float64.
Infix "+" := fadd : f64_scope.
Infix "-" := fsub : f64_scope.
Infix "*" := fmul : f64_scope.
Infix "/" := fdiv : f64_scope.
Infix "<?" := flt : f64_scope.
Infix "<=?" := fle : f64_scope.
Infix ">?" := fgt : f64_scope.
Infix ">=?" := fge : f64_scope.
Infix "=?" := feq : f64_scope.

(** ** Geometry: Point, Rect, DrawArea, GlyphBox *)

Module Point.
Record t : Type := mk { X : float64; Y : float64 }.
Definition zero : t := mk Float64.zero Float64.zero.
Definition eqb (p q : t) : bool :=
  Float64.eqb (X p) (X q) && Float64.eqb (Y p) (Y q).
End Point.

Module Rect.
Record t : Type := mk { Min : Point.t; Size : Point.t }.
Definition zero : t := mk Point.zero Point.zero.

(** Modelled from the spec: [Rect.Max] is declared in [draw.go];
    "Max = Min + Size". *)
Definition Max (r : t) : Point.t :=
  Point.mk (Point.X (Min r) + Point.X (Size r))%f64
           (Point.Y (Min r) + Point.Y (Size r))%f64.

Definition eqb (r s : t) : bool :=
  Point.eqb (Min r) (Min s) && Point.eqb (Size r) (Size s).
End Rect.

(** The rendering surface behind a [vg.Canvas]; only its identity matters. *)
Inductive Surface : Type :=
| EPSCanvas
| ImgCanvas
| SVGCanvas
| PDFCanvas
| OtherCanvas (id : nat).

Module DrawArea.
(** [DrawArea] embeds a [vg.Canvas] and a [Rect].  A padded or cropped area
    is built with [vg.Canvas(da)]: its canvas is the area it was derived
    from, every drawing call is forwarded to the same underlying surface,
    which is what the [Canvas] field keeps. *)
Record t : Type := mk { Canvas : Surface; Rect : Rect.t }.

Definition Min (da : t) : Point.t := Rect.Min (Rect da).
Definition Size (da : t) : Point.t := Rect.Size (Rect da).
Definition Max (da : t) : Point.t := Rect.Max (Rect da).

(** Modelled from the spec: [DrawArea.X] is declared in [draw.go];
    "X(f) = innerMin + f·innerSize". *)
Definition X (da : t) (x : float64) : float64 :=
  (Point.X (Min da) + x * Point.X (Size da))%f64.

(** Modelled from the spec: [DrawArea.Y] is declared in [draw.go]; the
    mirror of [X] on the vertical axis. *)
Definition Y (da : t) (y : float64) : float64 :=
  (Point.Y (Min da) + y * Point.Y (Size da))%f64.

(** Modelled from the spec: [DrawArea.Center] is declared in [draw.go];
    "Center(), Max() derive from Min+Size". *)
Definition Center (da : t) : Point.t :=
  Point.mk (Point.X (Min da) + Point.X (Size da) / ofZ 2)%f64
           (Point.Y (Min da) + Point.Y (Size da) / ofZ 2)%f64.

(** Modelled from the spec: [DrawArea.crop] is declared in [draw.go];
    "Crop(left,bottom,right,top) returns a new region inset by the given
    device-length margins on each side". *)
Definition crop (da : t) (left bottom right top : float64) : t :=
  mk (Canvas da)
     (Rect.mk
        (Point.mk (Point.X (Min da) + left)%f64 (Point.Y (Min da) + bottom)%f64)
        (Point.mk (Point.X (Size da) - (left + right))%f64
                  (Point.Y (Size da) - (bottom + top))%f64)).
End DrawArea.

Module GlyphBox.
(** The glyph location in normalized coordinates and the embedded [Rect]:
    the offset of the glyph's minimum drawing point and its size. *)
Record t : Type := mk { X : float64; Y : float64; Rect : Rect.t }.

Definition Min (b : t) : Point.t := Rect.Min (Rect b).
Definition Size (b : t) : Point.t := Rect.Size (Rect b).

(** The zero value [GlyphBox{}] and the composite literals [GlyphBox{X: 1}]
    and [GlyphBox{Y: 1}]. *)
Definition zero : t := mk Float64.zero Float64.zero Rect.zero.
Definition atX1 : t := mk Float64.one Float64.zero Rect.zero.
Definition atY1 : t := mk Float64.zero Float64.one Rect.zero.
End GlyphBox.

(** ** Axis, title, plotters and the plot *)

Module Axis.
Record t : Type := mk { Min : float64; Max : float64; Padding : float64 }.
End Axis.

Inductive Color : Type :=
| White
| Black
| RGBA (r g b a : nat).

Record Font : Type := mkFont { FontName : string; FontSize : float64 }.

Record TextStyle : Type := mkTextStyle { TextColor : Color; TextFont : Font }.

Module Title.
Record t : Type := mk { Text : string; Style : TextStyle }.
End Title.

(** The exported part of a [Plot]: what code of another package can read
    through a [*Plot].  The content of [Legend] plays no part in the layout
    and is left out; its drawing is an entry of the canvas log. *)
Record PlotFields : Type := mkPlotFields {
  Title : Title.t;
  BackgroundColor : option Color;
  X : Axis.t;
  Y : Axis.t
}.

(** A [Plotter] value together with the optional interfaces it satisfies:
    [d.(DataRanger)] succeeds when [DataRange] is [Some], [d.(GlyphBoxer)]
    when [AsGlyphBoxer] is [Some].  [PlotterId] names the value in the
    drawing log. *)
Record Plotter : Type := mkPlotter {
  PlotterId : nat;
  DataRange : option (float64 * float64 * float64 * float64);
  AsGlyphBoxer : option (PlotFields -> list GlyphBox.t)
}.

Record Plot : Type := mkPlot {
  fields : PlotFields;
  plotters : list Plotter
}.

Definition set_X (f : PlotFields) (a : Axis.t) : PlotFields :=
  mkPlotFields (Title f) (BackgroundColor f) a (Y f).

Definition set_Y (f : PlotFields) (a : Axis.t) : PlotFields :=
  mkPlotFields (Title f) (BackgroundColor f) (X f) a.

Definition set_Min (a : Axis.t) (v : float64) : Axis.t :=
  Axis.mk v (Axis.Max a) (Axis.Padding a).

Definition set_Max (a : Axis.t) (v : float64) : Axis.t :=
  Axis.mk (Axis.Min a) v (Axis.Padding a).

(** *** Add *)

(** The body of the loop of [Add] for one plotter [d]. *)
Definition Add_range (f : PlotFields) (d : Plotter) : PlotFields :=
  match DataRange d with
  | Some (xmin, xmax, ymin, ymax) =>
      let f := set_X f (set_Min (X f) (math_Min (Axis.Min (X f)) xmin)) in
      let f := set_X f (set_Max (X f) (math_Max (Axis.Max (X f)) xmax)) in
      let f := set_Y f (set_Min (Y f) (math_Min (Axis.Min (Y f)) ymin)) in
      let f := set_Y f (set_Max (Y f) (math_Max (Axis.Max (Y f)) ymax)) in
      f
  | None => f
  end.

(** [func (p *Plot) Add(ps ...Plotter)] *)
Definition Add (p : Plot) (ps : list Plotter) : Plot :=
  mkPlot (fold_left Add_range ps (fields p)) (plotters p ++ ps).

(** A sequence of [Add] calls, one argument list per call. *)
Definition Add_all (p : Plot) (calls : list (list Plotter)) : Plot :=
  fold_left Add calls p.

(** *** GlyphBoxes *)

(** [func (p *Plot) GlyphBoxes(_ *Plot) (boxes []GlyphBox)] *)
Definition GlyphBoxes (p : Plot) : list GlyphBox.t :=
  fold_left
    (fun boxes d =>
       match AsGlyphBoxer d with
       | Some gb => boxes ++ gb (fields p)
       | None => boxes
       end)
    (plotters p) [].

(** ** Code of the package outside [plot.go] *)

Inductive error : Type :=
| Errorf (msg : string)
| BackendError (code : nat).

(** The five ways [Save] finalizes a canvas: [veceps.Canvas.Save],
    [vecimg.Canvas.SavePNG], [vecimg.Canvas.SaveJPEG], [vecsvg.Canvas.Save]
    and [vecpdf.Canvas.Save]. *)
Inductive Format : Type :=
| FmtEPS
| FmtPNG
| FmtJPEG
| FmtSVG
| FmtPDF.

(** Operations that [plot.go] calls and that are declared elsewhere
    ([axis.go], [draw.go], the text metrics and the [vg] back ends).  They
    are parameters of the development.
    - [horizontalAxis_GlyphBoxes a] is [horizontalAxis{a}.GlyphBoxes(p)];
    - [vecimg_New w h] is [Some e] when [vecimg.New] returns the error [e];
    - [canvas_Save fmt file] is the error returned by the finalizer, if any. *)
Class External : Type := {
  sanitizeRange : Axis.t -> Axis.t;
  horizontalAxis_size : Axis.t -> float64;
  verticalAxis_size : Axis.t -> float64;
  horizontalAxis_GlyphBoxes : Axis.t -> list GlyphBox.t;
  verticalAxis_GlyphBoxes : Axis.t -> list GlyphBox.t;
  TextStyle_Height : TextStyle -> string -> float64;
  Font_Descent : Font -> float64;
  vg_Inches : float64 -> float64;
  NewDrawArea : Surface -> float64 -> float64 -> DrawArea.t;
  vecimg_New : float64 -> float64 -> option error;
  canvas_Save : Format -> string -> option error
}.

(** ** The padding pass *)

(** The four selection loops of the padding pass share one shape: scan the
    boxes, keep the running extreme [fst st] and the box that reached it,
    replace both when the edge [key b] of a box that qualifies ([ok b]) is
    strictly [better].  The four functions below are written out as in the
    source; each step is this one at its own [key], [ok] and [better]. *)
Section Scan.
Variables (A : Type) (key : A -> float64) (ok : A -> bool).
Variable better : float64 -> float64 -> bool.

Definition scan_step (st : float64 * A) (b : A) : float64 * A :=
  if better (key b) (fst st) && ok b then (key b, b) else st.

Definition scan (boxes : list A) (m0 : float64) (l0 : A) : float64 * A :=
  fold_left scan_step boxes (m0, l0).
End Scan.

(** The loop state of [leftMost]: the running [minx] and the running [l]. *)
Definition leftMost_step (da : DrawArea.t) (st : float64 * GlyphBox.t)
  (b : GlyphBox.t) : float64 * GlyphBox.t :=
  let x := (DrawArea.X da (GlyphBox.X b) + Point.X (GlyphBox.Min b))%f64 in
  if (x <? fst st)%f64 && (GlyphBox.X b >=? Float64.zero)%f64
  then (x, b) else st.

(** [func leftMost(da *DrawArea, boxes []GlyphBox) GlyphBox] *)
Definition leftMost (da : DrawArea.t) (boxes : list GlyphBox.t) : GlyphBox.t :=
  snd (fold_left (leftMost_step da) boxes
         (Point.X (DrawArea.Min da), GlyphBox.zero)).

Definition rightMost_step (da : DrawArea.t) (st : float64 * GlyphBox.t)
  (b : GlyphBox.t) : float64 * GlyphBox.t :=
  let x := (DrawArea.X da (GlyphBox.X b) + Point.X (GlyphBox.Min b)
            + Point.X (GlyphBox.Size b))%f64 in
  if (x >? fst st)%f64 && (GlyphBox.X b <=? Float64.one)%f64
  then (x, b) else st.

(** [func rightMost(da *DrawArea, boxes []GlyphBox) GlyphBox] *)
Definition rightMost (da : DrawArea.t) (boxes : list GlyphBox.t) : GlyphBox.t :=
  snd (fold_left (rightMost_step da) boxes
         (Point.X (DrawArea.Max da), GlyphBox.atX1)).

Definition bottomMost_step (da : DrawArea.t) (st : float64 * GlyphBox.t)
  (b : GlyphBox.t) : float64 * GlyphBox.t :=
  let y := (DrawArea.Y da (GlyphBox.Y b) + Point.Y (GlyphBox.Min b))%f64 in
  if (y <? fst st)%f64 && (GlyphBox.Y b >=? Float64.zero)%f64
  then (y, b) else st.

(** [func bottomMost(da *DrawArea, boxes []GlyphBox) GlyphBox] *)
Definition bottomMost (da : DrawArea.t) (boxes : list GlyphBox.t) : GlyphBox.t :=
  snd (fold_left (bottomMost_step da) boxes
         (Point.Y (DrawArea.Min da), GlyphBox.zero)).

Definition topMost_step (da : DrawArea.t) (st : float64 * GlyphBox.t)
  (b : GlyphBox.t) : float64 * GlyphBox.t :=
  let y := (DrawArea.Y da (GlyphBox.Y b) + Point.Y (GlyphBox.Min b)
            + Point.Y (GlyphBox.Size b))%f64 in
  if (y >? fst st)%f64 && (GlyphBox.Y b <=? Float64.one)%f64
  then (y, b) else st.

(** [func topMost(da *DrawArea, boxes []GlyphBox) GlyphBox] *)
Definition topMost (da : DrawArea.t) (boxes : list GlyphBox.t) : GlyphBox.t :=
  snd (fold_left (topMost_step da) boxes
         (Point.Y (DrawArea.Max da), GlyphBox.atY1)).

(** [func padX(p *Plot, da *DrawArea) *DrawArea] *)
Definition padX `{External} (p : Plot) (da : DrawArea.t) : DrawArea.t :=
  let glyphs := GlyphBoxes p in
  let l := leftMost da glyphs in
  let glyphs := glyphs ++ horizontalAxis_GlyphBoxes (X (fields p)) in
  let r := rightMost da glyphs in
  let minx := (Point.X (DrawArea.Min da) - Point.X (GlyphBox.Min l))%f64 in
  let maxx := (Point.X (DrawArea.Max da)
               - (Point.X (GlyphBox.Min r) + Point.X (GlyphBox.Size r)))%f64 in
  let lx := GlyphBox.X l in
  let rx := GlyphBox.X r in
  let n := ((lx * maxx - rx * minx) / (lx - rx))%f64 in
  let m := (((lx - Float64.one) * maxx - rx * minx + minx) / (lx - rx))%f64 in
  DrawArea.mk (DrawArea.Canvas da)
    (Rect.mk (Point.mk n (Point.Y (DrawArea.Min da)))
             (Point.mk (m - n)%f64 (Point.Y (DrawArea.Size da)))).

(** [func padY(p *Plot, da *DrawArea) *DrawArea] *)
Definition padY `{External} (p : Plot) (da : DrawArea.t) : DrawArea.t :=
  let glyphs := GlyphBoxes p in
  let b := bottomMost da glyphs in
  let glyphs := glyphs ++ verticalAxis_GlyphBoxes (Y (fields p)) in
  let t := topMost da glyphs in
  let miny := (Point.Y (DrawArea.Min da) - Point.Y (GlyphBox.Min b))%f64 in
  let maxy := (Point.Y (DrawArea.Max da)
               - (Point.Y (GlyphBox.Min t) + Point.Y (GlyphBox.Size t)))%f64 in
  let by_ := GlyphBox.Y b in
  let ty := GlyphBox.Y t in
  let n := ((by_ * maxy - ty * miny) / (by_ - ty))%f64 in
  let m := (((by_ - Float64.one) * maxy - ty * miny + miny) / (by_ - ty))%f64 in
  DrawArea.mk (DrawArea.Canvas da)
    (Rect.mk (Point.mk (Point.X (DrawArea.Min da)) n)
             (Point.mk (Point.X (DrawArea.Size da)) (m - n)%f64)).

(** ** Draw: the caller's DrawArea is reached through a pointer *)

(** What reaches the rendering surface, in order. *)
Inductive CanvasOp : Type :=
| OpSetColor (c : Color)
| OpFill (r : Rect.t)
| OpFillText (sty : TextStyle) (x y xalign yalign : float64) (txt : string)
| OpAxisDraw (horizontal : bool) (a : Axis.t) (da : DrawArea.t)
| OpPlot (id : nat) (da : DrawArea.t)
| OpLegendDraw (da : DrawArea.t).

(** The store of [DrawArea] cells (a [*DrawArea] is an index into it) and
    the log of canvas operations. *)
Record World : Type := mkWorld { areas : list DrawArea.t; ops : list CanvasOp }.

(** State and failure: [None] is the run-time panic of a nil or dangling
    pointer dereference. *)
Definition M (A : Type) : Type := World -> option (A * World).

Definition ret {A : Type} (a : A) : M A := fun w => Some (a, w).

Definition bind {A B : Type} (c : M A) (k : A -> M B) : M B :=
  fun w => match c w with
           | Some (a, w') => k a w'
           | None => None
           end.

Notation "x <- c ;; k" := (bind c (fun x => k))
  (at level 61, c at next level, right associativity).
Notation "c ;; k" := (bind c (fun _ => k))
  (at level 61, right associativity).

Fixpoint set_nth {A : Type} (n : nat) (v : A) (l : list A) : list A :=
  match l, n with
  | [], _ => []
  | _ :: tl, O => v :: tl
  | x :: tl, S n' => x :: set_nth n' v tl
  end.

(** [&DrawArea{...}]: a fresh cell. *)
Definition new (v : DrawArea.t) : M nat :=
  fun w => Some (List.length (areas w), mkWorld (areas w ++ [v]) (ops w)).

(** Reading [*da]. *)
Definition load (a : nat) : M DrawArea.t :=
  fun w => match nth_error (areas w) a with
           | Some v => Some (v, w)
           | None => None
           end.

(** Writing through [da]. *)
Definition store (a : nat) (v : DrawArea.t) : M unit :=
  fun w => if (a <? List.length (areas w))%nat
           then Some (tt, mkWorld (set_nth a v (areas w)) (ops w))
           else None.

Definition emit (o : CanvasOp) : M unit :=
  fun w => Some (tt, mkWorld (areas w) (ops w ++ [o])).

Fixpoint for_each {A : Type} (l : list A) (body : A -> M unit) : M unit :=
  match l with
  | [] => ret tt
  | a :: tl => body a ;; for_each tl body
  end.

(** [da.Size.Y -= d] on a cell's value. *)
Definition shrink_Size_Y (v : DrawArea.t) (d : float64) : DrawArea.t :=
  DrawArea.mk (DrawArea.Canvas v)
    (Rect.mk (DrawArea.Min v)
       (Point.mk (Point.X (DrawArea.Size v)) (Point.Y (DrawArea.Size v) - d)%f64)).

(** [da.crop(...)], [padX(p, da)] and [padY(p, da)] on pointers: the
    argument is read and the result is a fresh cell. *)
Definition crop_ptr (da : nat) (left bottom right top : float64) : M nat :=
  v <- load da ;; new (DrawArea.crop v left bottom right top).

Definition padX_ptr `{External} (p : Plot) (da : nat) : M nat :=
  v <- load da ;; new (padX p v).

Definition padY_ptr `{External} (p : Plot) (da : nat) : M nat :=
  v <- load da ;; new (padY p v).

(** [func (p *Plot) Draw(da *DrawArea)].  The result is the plot as [Draw]
    leaves it ([sanitizeRange] writes to [p.X] and [p.Y]). *)
Definition Draw `{External} (p : Plot) (da : nat) : M Plot :=
  match BackgroundColor (fields p) with
  | Some c =>
      emit (OpSetColor c) ;;
      v <- load da ;;
      emit (OpFill (DrawArea.Rect v))
  | None => ret tt
  end ;;
  (if String.eqb (Title.Text (Title (fields p))) EmptyString
   then ret tt
   else
     v <- load da ;;
     emit (OpFillText (Title.Style (Title (fields p)))
             (Point.X (DrawArea.Center v)) (Point.Y (DrawArea.Max v))
             (ofQ (-1 # 2)) (ofZ (-1)) (Title.Text (Title (fields p)))) ;;
     v <- load da ;;
     store da
       (shrink_Size_Y v
          (TextStyle_Height (Title.Style (Title (fields p)))
             (Title.Text (Title (fields p)))
           - Font_Descent (TextFont (Title.Style (Title (fields p)))))%f64)) ;;
  let x := sanitizeRange (X (fields p)) in
  let y := sanitizeRange (Y (fields p)) in
  let p := mkPlot (set_Y (set_X (fields p) x) y) (plotters p) in
  let ywidth := verticalAxis_size y in
  c1 <- crop_ptr da ywidth Float64.zero Float64.zero Float64.zero ;;
  a1 <- padX_ptr p c1 ;;
  v1 <- load a1 ;;
  emit (OpAxisDraw true x v1) ;;
  let xheight := horizontalAxis_size x in
  c2 <- crop_ptr da Float64.zero xheight Float64.zero Float64.zero ;;
  a2 <- padY_ptr p c2 ;;
  v2 <- load a2 ;;
  emit (OpAxisDraw false y v2) ;;
  c3 <- crop_ptr da ywidth xheight Float64.zero Float64.zero ;;
  a3 <- padX_ptr p c3 ;;
  da <- padY_ptr p a3 ;;
  for_each (plotters p)
    (fun data => v <- load da ;; emit (OpPlot (PlotterId data) v)) ;;
  v <- load da ;;
  emit (OpLegendDraw v) ;;
  ret p.

(** ** Save *)

(** [os.IsPathSeparator] on a Unix system. *)
Definition IsPathSeparator (c : ascii) : bool := Ascii.eqb c "/"%char.

(** The loop of [filepath.Ext], from the last byte towards the first;
    [suffix] is [path[i+1:]]. *)
Fixpoint Ext_loop (rev_path : list ascii) (suffix : string) : string :=
  match rev_path with
  | [] => EmptyString
  | c :: rest =>
      if IsPathSeparator c then EmptyString
      else if Ascii.eqb c "."%char then String c suffix
      else Ext_loop rest (String c suffix)
  end.

(** [filepath.Ext] *)
Definition filepath_Ext (path : string) : string :=
  Ext_loop (rev (list_ascii_of_string path)) EmptyString.

(** [unicode.ToLower] on one byte: the ASCII capitals are mapped, every
    other byte is kept.  (Outside ASCII Go maps a rune to a rune that is no
    letter of the six extensions.) *)
Definition ToLower_ascii (c : ascii) : ascii :=
  let n := nat_of_ascii c in
  if (65 <=? n)%nat && (n <=? 90)%nat then ascii_of_nat (n + 32) else c.

(** [strings.ToLower] *)
Fixpoint strings_ToLower (s : string) : string :=
  match s with
  | EmptyString => EmptyString
  | String c tl => String (ToLower_ascii c) (strings_ToLower tl)
  end.

Inductive SaveEvent : Type :=
| EvNewCanvas (s : Surface) (w h : float64)
| EvDraw (log : list CanvasOp)
| EvWrite (fmt : Format) (file : string).

(** The canvas constructor and the deferred finalizer a lowered extension
    selects; the last component tells whether the constructor can fail. *)
Definition backend_of (ext : string) : option (Surface * Format * bool) :=
  if String.eqb ext ".eps" then Some (EPSCanvas, FmtEPS, false)
  else if String.eqb ext ".png" then Some (ImgCanvas, FmtPNG, true)
  else if String.eqb ext ".jpg" || String.eqb ext ".jpeg"
       then Some (ImgCanvas, FmtJPEG, true)
  else if String.eqb ext ".svg" then Some (SVGCanvas, FmtSVG, false)
  else if String.eqb ext ".pdf" then Some (PDFCanvas, FmtPDF, false)
  else None.

Record SaveResult : Type := mkSaveResult {
  saved_plot : Plot;
  err : option error;
  events : list SaveEvent
}.

(** [func (p *Plot) Save(width, height float64, file string) (err error)].
    The deferred call runs after [Draw] returns; for [".eps"] its result is
    dropped, for the other formats it is assigned to [err]. *)
Definition Save `{External} (p : Plot) (width height : float64) (file : string)
  : option SaveResult :=
  let w := vg_Inches width in
  let h := vg_Inches height in
  let ext := strings_ToLower (filepath_Ext file) in
  match backend_of ext with
  | None =>
      Some (mkSaveResult p
              (Some (Errorf ("Unsupported file extension: " ++ ext)%string)) [])
  | Some (c, fmt, fallible) =>
      match (if fallible then vecimg_New w h else None) with
      | Some e => Some (mkSaveResult p (Some e) [])
      | None =>
          match Draw p 0 (mkWorld [NewDrawArea c w h] []) with
          | None => None
          | Some (p', world) =>
              Some (mkSaveResult p'
                      (match fmt with
                       | FmtEPS => None
                       | _ => canvas_Save fmt file
                       end)
                      [EvNewCanvas c w h; EvDraw (ops world); EvWrite fmt file])
          end
      end
  end.

(** ** Vocabulary of the specification *)

(** The four axis bounds [Add] writes, the component of a reported data
    range each one is widened with, and the [math] function used. *)
Inductive Bound : Type :=
| XMin
| XMax
| YMin
| YMax.

Definition bound (c : Bound) (f : PlotFields) : float64 :=
  match c with
  | XMin => Axis.Min (X f)
  | XMax => Axis.Max (X f)
  | YMin => Axis.Min (Y f)
  | YMax => Axis.Max (Y f)
  end.

Definition component (c : Bound) (r : float64 * float64 * float64 * float64)
  : float64 :=
  let '(xmin, xmax, ymin, ymax) := r in
  match c with
  | XMin => xmin
  | XMax => xmax
  | YMin => ymin
  | YMax => ymax
  end.

Definition widen (c : Bound) : float64 -> float64 -> float64 :=
  match c with
  | XMin | YMin => math_Min
  | XMax | YMax => math_Max
  end.

(** The values the [DataRanger]s among [ps] report for the bound [c], in
    the order of [ps]. *)
Definition reports (c : Bound) (ps : list Plotter) : list float64 :=
  flat_map (fun d => match DataRange d with
                     | Some r => [component c r]
                     | None => []
                     end) ps.

(** [covers c b v]: the bound [b] reaches the reported value [v]. *)
Definition covers (c : Bound) (b v : float64) : bool :=
  match c with
  | XMin | YMin => (b <=? v)%f64
  | XMax | YMax => (v <=? b)%f64
  end.

(** The infinity that [widen c] returns whatever the other argument is. *)
Definition absorbing (c : Bound) : float64 :=
  match c with
  | XMin | YMin => NInf
  | XMax | YMax => PInf
  end.

(** What one registered plotter contributes to the glyph boxes of a plot. *)
Definition own_boxes (f : PlotFields) (d : Plotter) : list GlyphBox.t :=
  match AsGlyphBoxer d with
  | Some gb => gb f
  | None => []
  end.

(** The absolute left and right edge of a glyph box in a region. *)
Definition left_edge (da : DrawArea.t) (b : GlyphBox.t) : float64 :=
  (DrawArea.X da (GlyphBox.X b) + Point.X (GlyphBox.Min b))%f64.

Definition right_edge (da : DrawArea.t) (b : GlyphBox.t) : float64 :=
  (DrawArea.X da (GlyphBox.X b) + Point.X (GlyphBox.Min b)
   + Point.X (GlyphBox.Size b))%f64.

Definition bottom_edge (da : DrawArea.t) (b : GlyphBox.t) : float64 :=
  (DrawArea.Y da (GlyphBox.Y b) + Point.Y (GlyphBox.Min b))%f64.

Definition top_edge (da : DrawArea.t) (b : GlyphBox.t) : float64 :=
  (DrawArea.Y da (GlyphBox.Y b) + Point.Y (GlyphBox.Min b)
   + Point.Y (GlyphBox.Size b))%f64.

(** The two boxes [l] and [r] that [padX] selects, and [b] and [t] for
    [padY]: the first is searched among the plotters' boxes only, the second
    after the boxes of the axis have been appended. *)
Definition padX_left (p : Plot) (da : DrawArea.t) : GlyphBox.t :=
  leftMost da (GlyphBoxes p).

Definition padX_right `{External} (p : Plot) (da : DrawArea.t) : GlyphBox.t :=
  rightMost da (GlyphBoxes p ++ horizontalAxis_GlyphBoxes (X (fields p))).

Definition padY_bottom (p : Plot) (da : DrawArea.t) : GlyphBox.t :=
  bottomMost da (GlyphBoxes p).

Definition padY_top `{External} (p : Plot) (da : DrawArea.t) : GlyphBox.t :=
  topMost da (GlyphBoxes p ++ verticalAxis_GlyphBoxes (Y (fields p))).

(** The target device edges [minx], [maxx] of [padX] and [miny], [maxy] of
    [padY]. *)
Definition padX_minx (p : Plot) (da : DrawArea.t) : float64 :=
  (Point.X (DrawArea.Min da) - Point.X (GlyphBox.Min (padX_left p da)))%f64.

Definition padX_maxx `{External} (p : Plot) (da : DrawArea.t) : float64 :=
  (Point.X (DrawArea.Max da)
   - (Point.X (GlyphBox.Min (padX_right p da))
      + Point.X (GlyphBox.Size (padX_right p da))))%f64.

Definition padY_miny (p : Plot) (da : DrawArea.t) : float64 :=
  (Point.Y (DrawArea.Min da) - Point.Y (GlyphBox.Min (padY_bottom p da)))%f64.

Definition padY_maxy `{External} (p : Plot) (da : DrawArea.t) : float64 :=
  (Point.Y (DrawArea.Max da)
   - (Point.Y (GlyphBox.Min (padY_top p da))
      + Point.Y (GlyphBox.Size (padY_top p da))))%f64.

(** The closed forms as the specification words them: "innerMin" is the
    quotient with [(lx - 1)], "innerSize" the other quotient minus
    "innerMin". *)
Definition spec_innerMin (lx rx minx maxx : float64) : float64 :=
  (((lx - Float64.one) * maxx - rx * minx + minx) / (lx - rx))%f64.

Definition spec_innerSize (lx rx minx maxx : float64) : float64 :=
  ((lx * maxx - rx * minx) / (lx - rx) - spec_innerMin lx rx minx maxx)%f64.

(** The closed forms as the code assigns them: [n] to [Min], [m - n] to
    [Size]. *)
Definition code_innerMin (lx rx minx maxx : float64) : float64 :=
  ((lx * maxx - rx * minx) / (lx - rx))%f64.

Definition code_innerSize (lx rx minx maxx : float64) : float64 :=
  (((lx - Float64.one) * maxx - rx * minx + minx) / (lx - rx)
   - code_innerMin lx rx minx maxx)%f64.

(** A rectangle all of whose coordinates are finite. *)
Definition Rect_finite (r : Rect.t) : bool :=
  is_finite (Point.X (Rect.Min r)) && is_finite (Point.Y (Rect.Min r))
  && is_finite (Point.X (Rect.Size r)) && is_finite (Point.Y (Rect.Size r)).

(** The extensions [Save] supports, and what the documentation of [Save]
    and the specification pair them with. *)
Definition supported_extensions : list string :=
  [".eps"; ".png"; ".jpg"; ".jpeg"; ".svg"; ".pdf"]%string.

(** A plot whose axes have the empty range, [Min] at [+Inf] and [Max] at
    [-Inf], so that the first reported range replaces both bounds; no title
    text and no plotter. *)
Definition empty_axis : Axis.t := Axis.mk PInf NInf Float64.zero.

Definition empty_plot : Plot :=
  mkPlot (mkPlotFields (Title.mk EmptyString (mkTextStyle Black (mkFont "Times-Roman" (ofZ 12))))
            (Some White) empty_axis empty_axis) [].

(** External operations for closed examples: axes without tick labels and
    of no thickness, a title ten units high with descent two. *)
Definition plain_external : External := {|
  sanitizeRange := fun a => a;
  horizontalAxis_size := fun _ => Float64.zero;
  verticalAxis_size := fun _ => Float64.zero;
  horizontalAxis_GlyphBoxes := fun _ => [];
  verticalAxis_GlyphBoxes := fun _ => [];
  TextStyle_Height := fun _ _ => ofZ 10;
  Font_Descent := fun _ => ofZ 2;
  vg_Inches := fun x => (x * ofZ 72)%f64;
  NewDrawArea := fun c w h =>
    DrawArea.mk c (Rect.mk Point.zero (Point.mk w h));
  vecimg_New := fun _ _ => None;
  canvas_Save := fun _ _ => None
|}.

(** A region on an unnamed surface. *)
Definition region (x y w h : Z) : DrawArea.t :=
  DrawArea.mk (OtherCanvas 0)
    (Rect.mk (Point.mk (ofZ x) (ofZ y)) (Point.mk (ofZ w) (ofZ h))).

(** A plotter that only contributes the given glyph boxes. *)
Definition boxer (id : nat) (boxes : list GlyphBox.t) : Plotter :=
  mkPlotter id None (Some (fun _ => boxes)).

(** A plotter that only reports a data range. *)
Definition ranger (id : nat) (xmin xmax ymin ymax : float64) : Plotter :=
  mkPlotter id (Some (xmin, xmax, ymin, ymax)) None.

(** A glyph box with integer anchor fractions given as a rational. *)
Definition box (ax ay : Q) (minx miny sizex sizey : Z) : GlyphBox.t :=
  GlyphBox.mk (ofQ ax) (ofQ ay)
    (Rect.mk (Point.mk (ofZ minx) (ofZ miny)) (Point.mk (ofZ sizex) (ofZ sizey))).

(** External operations whose horizontal axis carries two tick labels, ten
    units wide and centred on the ends of the axis. *)
Definition ticked_external : External := {|
  sanitizeRange := fun a => a;
  horizontalAxis_size := fun _ => Float64.zero;
  verticalAxis_size := fun _ => Float64.zero;
  horizontalAxis_GlyphBoxes := fun _ => [box 0 0 (-5) 0 10 0; box 1 0 (-5) 0 10 0];
  verticalAxis_GlyphBoxes := fun _ => [];
  TextStyle_Height := fun _ _ => ofZ 10;
  Font_Descent := fun _ => ofZ 2;
  vg_Inches := fun x => (x * ofZ 72)%f64;
  NewDrawArea := fun c w h =>
    DrawArea.mk c (Rect.mk Point.zero (Point.mk w h));
  vecimg_New := fun _ _ => None;
  canvas_Save := fun _ _ => None
|}.

(** ** The claims that the code does not satisfy, as they are worded *)

(** "for every plot and region with lx <> rx, padX's result rectangle
    satisfies Min.X = innerMin and Size.X = innerSize as so defined". *)
Definition closed_form_as_worded `{External} (p : Plot) (da : DrawArea.t) : Prop :=
  let lx := GlyphBox.X (padX_left p da) in
  let rx := GlyphBox.X (padX_right p da) in
  (lx =? rx)%f64 = false ->
  Point.X (DrawArea.Min (padX p da))
  = spec_innerMin lx rx (padX_minx p da) (padX_maxx p da) /\
  Point.X (DrawArea.Size (padX p da))
  = spec_innerSize lx rx (padX_minx p da) (padX_maxx p da).

(** "If lx == rx the pass is skipped and the pre-padding region is returned
    unchanged for that axis". *)
Definition singular_skip_as_worded `{External} (p : Plot) (da : DrawArea.t) : Prop :=
  (GlyphBox.X (padX_left p da) =? GlyphBox.X (padX_right p da))%f64 = true ->
  padX p da = da.

(** "If no glyph boxes are anchored at or beyond the [0,1] range, the region
    returned by the padding pass equals the input region unchanged". *)
Definition strictly_inside (v : float64) : bool :=
  (Float64.zero <? v)%f64 && (v <? Float64.one)%f64.

Definition no_glyph_identity_as_worded `{External} (p : Plot) (da : DrawArea.t) : Prop :=
  Rect_finite (DrawArea.Rect da) = true ->
  (forall b, In b (GlyphBoxes p ++ horizontalAxis_GlyphBoxes (X (fields p))
                   ++ verticalAxis_GlyphBoxes (Y (fields p))) ->
             strictly_inside (GlyphBox.X b) = true /\
             strictly_inside (GlyphBox.Y b) = true) ->
  padX p da = da /\ padY p da = da.

(** "the left-most box is selected among the plot's glyph boxes together
    with the x-axis's contributed boxes, and it is the box, among those with
    anchor fraction X >= 0, whose absolute left edge is the smallest; only
    when no candidate with anchor X >= 0 exists is the sentinel used". *)
Definition leftmost_as_worded `{External} (p : Plot) (da : DrawArea.t) : Prop :=
  let candidates :=
    filter (fun b => (GlyphBox.X b >=? Float64.zero)%f64)
      (GlyphBoxes p ++ horizontalAxis_GlyphBoxes (X (fields p))) in
  let l := padX_left p da in
  (candidates = [] -> l = GlyphBox.zero) /\
  (candidates <> [] ->
   In l candidates /\
   forall b, In b candidates -> (left_edge da l <=? left_edge da b)%f64 = true).

(** "For every sequence of Add calls, the Min values are non-increasing and
    the Max values are non-decreasing", at one call. *)
Definition monotone_as_worded (p : Plot) (ps : list Plotter) : Prop :=
  forall c, covers c (bound c (fields (Add p ps))) (bound c (fields p)) = true.

(** "If any plotter added via Add reports a data range containing NaN in
    some component, the corresponding axis bound becomes NaN". *)
Definition NaN_propagates_as_worded (p : Plot) (ps : list Plotter) : Prop :=
  forall c, In NaN (reports c ps) -> bound c (fields (Add p ps)) = NaN.

(** ** Reasoning vocabulary for [Draw] *)

(** [cell a v w]: the pointer [a] is valid in [w] and points to [v]. *)
Definition cell (a : nat) (v : DrawArea.t) (w : World) : Prop :=
  nth_error (areas w) a = Some v.

(** [runs c w Q]: from [w] the computation [c] does not panic and ends with
    a result and a world that satisfy [Q]. *)
Definition runs {A : Type} (c : M A) (w : World) (Q : A -> World -> Prop) : Prop :=
  exists a w', c w = Some (a, w') /\ Q a w'.

(** The backend the documentation pairs with a lowered extension: the
    canvas that is constructed and the finalizer that writes the file. *)
Definition expected_backend (ext : string) : option (Surface * Format) :=
  if String.eqb ext ".eps" then Some (EPSCanvas, FmtEPS)
  else if String.eqb ext ".png" then Some (ImgCanvas, FmtPNG)
  else if String.eqb ext ".jpg" then Some (ImgCanvas, FmtJPEG)
  else if String.eqb ext ".jpeg" then Some (ImgCanvas, FmtJPEG)
  else if String.eqb ext ".svg" then Some (SVGCanvas, FmtSVG)
  else if String.eqb ext ".pdf" then Some (PDFCanvas, FmtPDF)
  else None.

(** The amount [Draw] takes off the height of the area for the title. *)
Definition title_height `{External} (p : Plot) : float64 :=
  (TextStyle_Height (Title.Style (Title (fields p))) (Title.Text (Title (fields p)))
   - Font_Descent (TextFont (Title.Style (Title (fields p)))))%f64.

(** A plot with a title. *)
Definition titled_plot (text : string) : Plot :=
  mkPlot (mkPlotFields (Title.mk text (mkTextStyle Black (mkFont "Times-Roman" (ofZ 12))))
            (Some White) empty_axis empty_axis)
         [boxer 0 []; ranger 1 (ofZ 0) (ofZ 1) (ofZ 0) (ofZ 1)].

(* ================================================================== *)
(** * Part I, continued: the rest of [plot.go] *)
(* ================================================================== *)

From Stdlib Require Import Permutation.

(** A glyph box all of whose coordinates are finite. *)
Definition GlyphBox_finite (b : GlyphBox.t) : bool :=
  is_finite (GlyphBox.X b) && is_finite (GlyphBox.Y b)
  && Rect_finite (GlyphBox.Rect b).

(** ** What [Draw] sends to the canvas *)

(** The area as [Draw] leaves it for the layout: the caller's area, with
    the title's height taken off when there is a title. *)
Definition area_below_title `{External} (p : Plot) (v : DrawArea.t) : DrawArea.t :=
  if String.eqb (Title.Text (Title (fields p))) EmptyString
  then v else shrink_Size_Y v (title_height p).

(** The plot after [sanitizeRange] on both axes. *)
Definition sanitized `{External} (p : Plot) : Plot :=
  mkPlot (set_Y (set_X (fields p) (sanitizeRange (X (fields p))))
            (sanitizeRange (Y (fields p))))
         (plotters p).

(** The region [Draw] hands to the plotters and to the legend. *)
Definition data_area `{External} (p : Plot) (v : DrawArea.t) : DrawArea.t :=
  let q := sanitized p in
  padY q (padX q
    (DrawArea.crop (area_below_title p v)
       (verticalAxis_size (Y (fields q))) (horizontalAxis_size (X (fields q)))
       Float64.zero Float64.zero)).

(** The canvas operations of one call of [Draw] on the area [v], by step. *)
Definition background_ops (p : Plot) (v : DrawArea.t) : list CanvasOp :=
  match BackgroundColor (fields p) with
  | Some c => [OpSetColor c; OpFill (DrawArea.Rect v)]
  | None => []
  end.

Definition title_ops (p : Plot) (v : DrawArea.t) : list CanvasOp :=
  if String.eqb (Title.Text (Title (fields p))) EmptyString then []
  else [OpFillText (Title.Style (Title (fields p)))
          (Point.X (DrawArea.Center v)) (Point.Y (DrawArea.Max v))
          (ofQ (-1 # 2)) (ofZ (-1)) (Title.Text (Title (fields p)))].

Definition axes_ops `{External} (p : Plot) (v : DrawArea.t) : list CanvasOp :=
  let q := sanitized p in
  let below := area_below_title p v in
  [OpAxisDraw true (X (fields q))
     (padX q (DrawArea.crop below (verticalAxis_size (Y (fields q)))
                Float64.zero Float64.zero Float64.zero));
   OpAxisDraw false (Y (fields q))
     (padY q (DrawArea.crop below Float64.zero
                (horizontalAxis_size (X (fields q))) Float64.zero Float64.zero))].

(** External operations whose finalizers all fail to write the file. *)
Definition failing_writes : External := {|
  sanitizeRange := fun a => a;
  horizontalAxis_size := fun _ => Float64.zero;
  verticalAxis_size := fun _ => Float64.zero;
  horizontalAxis_GlyphBoxes := fun _ => [];
  verticalAxis_GlyphBoxes := fun _ => [];
  TextStyle_Height := fun _ _ => ofZ 10;
  Font_Descent := fun _ => ofZ 2;
  vg_Inches := fun x => (x * ofZ 72)%f64;
  NewDrawArea := fun c w h =>
    DrawArea.mk c (Rect.mk Point.zero (Point.mk w h));
  vecimg_New := fun _ _ => None;
  canvas_Save := fun _ _ => Some (BackendError 1)
|}.

(** ** NominalX and NominalY *)

(** A tick: [Tick{Value, Label}]. *)
Record Tick : Type := mkTick { TickValue : float64; TickLabel : string }.

(** The value of [Axis.Tick.Marker]: the marker the axis was made with, or
    [ConstantTicks(ticks)], which returns [ticks] whatever the range is. *)
Inductive Ticker : Type :=
| DefaultTicks
| ConstantTicks (ticks : list Tick).

(** The fields of [Axis] (declared in [axis.go]) that [NominalX] and
    [NominalY] read or write besides [Padding]: [Width], [Tick.Width],
    [Tick.Length], [Tick.Label] and [Tick.Marker]. *)
Module AxisLine.
Record t : Type := mk {
  Width : float64;
  TickWidth : float64;
  TickLength : float64;
  TickLabel : TextStyle;
  TickMarker : Ticker
}.
End AxisLine.

(** A plot together with these fields of its two axes. *)
Record StyledPlot : Type := mkStyledPlot {
  base : Plot;
  XLine : AxisLine.t;
  YLine : AxisLine.t
}.

(** [TextStyle.Width], declared with the text metrics. *)
Class TextWidth : Type := { TextStyle_Width : TextStyle -> string -> float64 }.

(** How a call ends: it returns, or it panics; either way the plot is left
    in the state the assignments made so far have put it in. *)
Inductive outcome (S : Type) : Type :=
| Returned (s : S)
| Panicked (s : S).
Arguments Returned {S} s.
Arguments Panicked {S} s.

Definition state_of {S : Type} (o : outcome S) : S :=
  match o with Returned s | Panicked s => s end.

(** [ticks := make([]Tick, len(names))] and the loop
    [for i, name := range names { ticks[i] = Tick{float64(i), name} }]. *)
Definition nominal_ticks (names : list string) : list Tick :=
  snd (fold_left
         (fun (st : nat * list Tick) (name : string) =>
            (S (fst st),
             set_nth (fst st) (mkTick (ofZ (Z.of_nat (fst st))) name) (snd st)))
         names
         (O, repeat (mkTick Float64.zero EmptyString) (List.length names))).

Definition set_Padding (a : Axis.t) (v : float64) : Axis.t :=
  Axis.mk (Axis.Min a) (Axis.Max a) v.

Definition set_fields (p : Plot) (f : PlotFields) : Plot := mkPlot f (plotters p).

(** [func (p *Plot) NominalX(names ...string)] *)
Definition NominalX `{TextWidth} (sp : StyledPlot) (names : list string)
  : outcome StyledPlot :=
  let xl := XLine sp in
  let xl := AxisLine.mk (AxisLine.Width xl) Float64.zero (AxisLine.TickLength xl)
              (AxisLine.TickLabel xl) (AxisLine.TickMarker xl) in
  let xl := AxisLine.mk (AxisLine.Width xl) (AxisLine.TickWidth xl) Float64.zero
              (AxisLine.TickLabel xl) (AxisLine.TickMarker xl) in
  let xl := AxisLine.mk Float64.zero (AxisLine.TickWidth xl) (AxisLine.TickLength xl)
              (AxisLine.TickLabel xl) (AxisLine.TickMarker xl) in
  match names with
  | [] => Panicked (mkStyledPlot (base sp) xl (YLine sp))
  | first :: _ =>
      let f := fields (base sp) in
      let f := set_Y f (set_Padding (Y f)
                          (TextStyle_Width (AxisLine.TickLabel xl) first / ofZ 2)%f64) in
      let ticks := nominal_ticks names in
      let xl := AxisLine.mk (AxisLine.Width xl) (AxisLine.TickWidth xl)
                  (AxisLine.TickLength xl) (AxisLine.TickLabel xl)
                  (ConstantTicks ticks) in
      Returned (mkStyledPlot (set_fields (base sp) f) xl (YLine sp))
  end.

(** [func (p *Plot) NominalY(names ...string)] *)
Definition NominalY `{External} (sp : StyledPlot) (names : list string)
  : outcome StyledPlot :=
  let yl := YLine sp in
  let yl := AxisLine.mk (AxisLine.Width yl) Float64.zero (AxisLine.TickLength yl)
              (AxisLine.TickLabel yl) (AxisLine.TickMarker yl) in
  let yl := AxisLine.mk (AxisLine.Width yl) (AxisLine.TickWidth yl) Float64.zero
              (AxisLine.TickLabel yl) (AxisLine.TickMarker yl) in
  let yl := AxisLine.mk Float64.zero (AxisLine.TickWidth yl) (AxisLine.TickLength yl)
              (AxisLine.TickLabel yl) (AxisLine.TickMarker yl) in
  match names with
  | [] => Panicked (mkStyledPlot (base sp) (XLine sp) yl)
  | first :: _ =>
      let f := fields (base sp) in
      let f := set_X f (set_Padding (X f)
                          (TextStyle_Height (AxisLine.TickLabel yl) first / ofZ 2)%f64) in
      let ticks := nominal_ticks names in
      let yl := AxisLine.mk (AxisLine.Width yl) (AxisLine.TickWidth yl)
                  (AxisLine.TickLength yl) (AxisLine.TickLabel yl)
                  (ConstantTicks ticks) in
      Returned (mkStyledPlot (set_fields (base sp) f) (XLine sp) yl)
  end.

(** Text metrics for closed examples: six units per character. *)
Definition plain_width : TextWidth :=
  {| TextStyle_Width := fun _ s => ofZ (6 * Z.of_nat (String.length s)) |}.

(** A plot with the default line fields on both axes. *)
Definition plain_line : AxisLine.t :=
  AxisLine.mk (ofQ (1 # 2)) (ofQ (1 # 2)) (ofZ 8)
    (mkTextStyle Black (mkFont "Times-Roman" (ofZ 10))) DefaultTicks.

Definition styled (p : Plot) : StyledPlot := mkStyledPlot p plain_line plain_line.

(** The ticks at the positions [i], [i+1], ... labelled with [names]. *)
Fixpoint ticks_from (i : nat) (names : list string) : list Tick :=
  match names with
  | [] => []
  | name :: tl => mkTick (ofZ (Z.of_nat i)) name :: ticks_from (S i) tl
  end.

(** ** Transforms *)

(** Modelled from the spec: [Axis.Norm] is declared in [axis.go];
    "Normalize(value) -> fraction is (value - Min) / (Max - Min)". *)
Definition Axis_Norm (a : Axis.t) (x : float64) : float64 :=
  ((x - Axis.Min a) / (Axis.Max a - Axis.Min a))%f64.

(** [func (p *Plot) Transforms(da *DrawArea) (x, y func(float64) vg.Length)].
    The two closures read the plot and the area when they are applied; here
    they are given the values the two pointers lead to. *)
Definition Transforms (p : Plot) (da : DrawArea.t)
  : (float64 -> float64) * (float64 -> float64) :=
  (fun x => DrawArea.X da (Axis_Norm (X (fields p)) x),
   fun y => DrawArea.Y da (Axis_Norm (Y (fields p)) y)).

(** ** DrawGlyphBoxes *)

(** What [DrawGlyphBoxes] sends to the canvas: the colour, then one stroked
    rectangle per glyph box. *)
Inductive OutlineOp : Type :=
| OutlineColor (c : Color)
| OutlineStroke (r : Rect.t).

(** The body of the loop of [DrawGlyphBoxes] on the copy [b] of a box:
    [b.Rect.Min.X += da.X(b.X)], [b.Rect.Min.Y += da.Y(b.Y)], and the
    rectangle that is stroked. *)
Definition outline (da : DrawArea.t) (b : GlyphBox.t) : Rect.t :=
  Rect.mk
    (Point.mk (Point.X (GlyphBox.Min b) + DrawArea.X da (GlyphBox.X b))%f64
              (Point.Y (GlyphBox.Min b) + DrawArea.Y da (GlyphBox.Y b))%f64)
    (GlyphBox.Size b).

(** [func (p *Plot) DrawGlyphBoxes(da *DrawArea)] *)
Definition DrawGlyphBoxes (p : Plot) (da : DrawArea.t) : list OutlineOp :=
  OutlineColor (RGBA 255 0 0 255)
  :: map (fun b => OutlineStroke (outline da b)) (GlyphBoxes p).

(** ** New *)

(** The constructors [New] calls: [vg.MakeFont], [makeAxis] and
    [makeLegend], each returning a value or an error.  [makeAxis] is called
    twice; its argument here is the number of the call. *)
Class Constructors : Type := {
  vg_MakeFont : string -> float64 -> Font + error;
  makeAxis : nat -> Axis.t + error;
  makeLegend : unit + error
}.

Definition defaultFont : string := "Times-Roman".

(** [func New()], which returns a plot or an error.  The legend, which the
    model of [Plot] leaves out, is constructed and dropped. *)
Definition New `{Constructors} : Plot + error :=
  match vg_MakeFont defaultFont (ofZ 12) with
  | inr e => inr e
  | inl titleFont =>
      match makeAxis 0 with
      | inr e => inr e
      | inl x =>
          match makeAxis 1 with
          | inr e => inr e
          | inl y =>
              match makeLegend with
              | inr e => inr e
              | inl _ =>
                  inl (mkPlot
                         (mkPlotFields
                            (Title.mk EmptyString (mkTextStyle Black titleFont))
                            (Some White) x y)
                         [])
              end
          end
      end
  end.

(** Constructors that succeed, with an empty range on the axes. *)
Definition plain_constructors : Constructors := {|
  vg_MakeFont := fun name size => inl (mkFont name size);
  makeAxis := fun _ => inl empty_axis;
  makeLegend := inl tt
|}.

(** Constructors whose second axis cannot be made. *)
Definition second_axis_fails : Constructors := {|
  vg_MakeFont := fun name size => inl (mkFont name size);
  makeAxis := fun n => match n with O => inl empty_axis | _ => inr (BackendError 7) end;
  makeLegend := inr (BackendError 9)
|}.

(** A plot whose axes range over [0, 10] and [0, 4], and one whose axes
    both have the single value 3. *)
Definition axes_plot (xmin xmax ymin ymax : Z) : Plot :=
  mkPlot
    (mkPlotFields
       (Title.mk EmptyString (mkTextStyle Black (mkFont "Times-Roman" (ofZ 12))))
       (Some White)
       (Axis.mk (ofZ xmin) (ofZ xmax) Float64.zero)
       (Axis.mk (ofZ ymin) (ofZ ymax) Float64.zero))
    [].

Definition ranged_plot : Plot := axes_plot 0 10 0 4.

Definition point_plot : Plot := axes_plot 3 3 3 3.

(* ================================================================== *)
(** * Part II: properties *)
(* ================================================================== *)

(** ** Facts on the number model *)

Lemma Qcltb_lt (x y : Qc) : Qcltb x y = true <-> x < y.
Proof.
  unfold Qcltb, Qclt, Qccompare. rewrite Qlt_alt.
  destruct (this x ?= this y)%Q; split; congruence.
Qed.

Lemma Qceqb_eq (x y : Qc) : Qceqb x y = true <-> x = y.
Proof.
  unfold Qceqb. split.
  - intros H. apply Qc_is_canon. now apply Qeq_bool_iff.
  - intros ->. apply Qeq_bool_iff. reflexivity.
Qed.

Lemma Qceqb_neq (x y : Qc) : Qceqb x y = false <-> x <> y.
Proof.
  rewrite <- Qceqb_eq. destruct (Qceqb x y); split; congruence.
Qed.

Lemma Qceqb_refl (x : Qc) : Qceqb x x = true.
Proof. now apply Qceqb_eq. Qed.

Lemma Qcltb_irrefl (x : Qc) : Qcltb x x = false.
Proof.
  destruct (Qcltb x x) eqn:E; [|reflexivity].
  apply Qcltb_lt in E. exfalso. apply (Qclt_not_le _ _ E), Qcle_refl.
Qed.

Lemma Qcltb_trans (x y z : Qc) :
  Qcltb x y = true -> Qcltb y z = true -> Qcltb x z = true.
Proof. rewrite !Qcltb_lt. apply Qclt_trans. Qed.

Lemma Qcltb_antisym (x y : Qc) : Qcltb x y = true -> Qcltb y x = false.
Proof.
  intros H. destruct (Qcltb y x) eqn:E; [|reflexivity].
  pose proof (Qcltb_trans _ _ _ H E) as F. rewrite Qcltb_irrefl in F. discriminate.
Qed.

Lemma Qcltb_total (x y : Qc) :
  Qcltb x y = false -> Qcltb y x = false -> x = y.
Proof.
  intros H1 H2. apply Qcle_antisym; apply Qcnot_lt_le; intros F;
    apply Qcltb_lt in F; congruence.
Qed.

Lemma eqb_eq (x y : float64) : Float64.eqb x y = true <-> x = y.
Proof.
  destruct x, y; simpl; split; try congruence; try discriminate.
  - intros H. apply Qceqb_eq in H. congruence.
  - intros H. apply Qceqb_eq. congruence.
Qed.

Lemma eqb_neq (x y : float64) : Float64.eqb x y = false <-> x <> y.
Proof.
  rewrite <- eqb_eq. destruct (Float64.eqb x y); split; congruence.
Qed.

Lemma Point_eqb_eq (p q : Point.t) : Point.eqb p q = true <-> p = q.
Proof.
  destruct p, q. unfold Point.eqb. simpl.
  rewrite andb_true_iff, !eqb_eq. split; [intros []|intros [=]]; subst; auto.
Qed.

Lemma Rect_eqb_eq (r s : Rect.t) : Rect.eqb r s = true <-> r = s.
Proof.
  destruct r, s. unfold Rect.eqb. simpl.
  rewrite andb_true_iff, !Point_eqb_eq. split; [intros []|intros [=]]; subst; auto.
Qed.

Lemma Rect_eqb_neq (r s : Rect.t) : Rect.eqb r s = false <-> r <> s.
Proof.
  rewrite <- Rect_eqb_eq. destruct (Rect.eqb r s); split; congruence.
Qed.

(** Comparisons: [<] is a strict order that [NaN] never enters. *)
Lemma flt_irrefl (x : float64) : (x <? x)%f64 = false.
Proof. destruct x; simpl; auto using Qcltb_irrefl. Qed.

Lemma flt_trans (x y z : float64) :
  (x <? y)%f64 = true -> (y <? z)%f64 = true -> (x <? z)%f64 = true.
Proof.
  destruct x, y, z; simpl; try congruence; try discriminate.
  apply Qcltb_trans.
Qed.

Lemma flt_NaN_l (x : float64) : (NaN <? x)%f64 = false.
Proof. reflexivity. Qed.

Lemma flt_NaN_r (x : float64) : (x <? NaN)%f64 = false.
Proof. now destruct x. Qed.

Lemma fle_NaN_l (x : float64) : (NaN <=? x)%f64 = false.
Proof. reflexivity. Qed.

Lemma fle_NaN_r (x : float64) : (x <=? NaN)%f64 = false.
Proof. now destruct x. Qed.

Lemma fle_refl (x : float64) : IsNaN x = false -> (x <=? x)%f64 = true.
Proof.
  destruct x; simpl; try discriminate; intros _; unfold fle; simpl;
    rewrite ?Qceqb_refl, ?orb_true_r; reflexivity.
Qed.

Lemma flt_fle (x y : float64) : (x <? y)%f64 = true -> (x <=? y)%f64 = true.
Proof. unfold fle. now intros ->. Qed.

(** On values that are not [NaN] the order is total. *)
Lemma fle_of_not_flt (x y : float64) :
  IsNaN x = false -> IsNaN y = false ->
  (x <? y)%f64 = false -> (y <=? x)%f64 = true.
Proof.
  destruct x, y; simpl; try discriminate; intros _ _ H; unfold fle; simpl;
    try reflexivity.
  destruct (Qcltb q0 q) eqn:E; [reflexivity|]. simpl.
  apply Qceqb_eq. now apply Qcltb_total.
Qed.

(** Division by zero and by [NaN] never gives a finite value, and a
    difference is finite only when both operands are. *)
Lemma fdiv_zero_not_finite (x : float64) :
  is_finite (x / Float64.zero)%f64 = false.
Proof.
  destruct x; try reflexivity.
  unfold fdiv, Float64.zero. rewrite Qceqb_refl. now destruct (q ?= 0).
Qed.

Lemma fdiv_NaN_not_finite (x : float64) : is_finite (x / NaN)%f64 = false.
Proof. now destruct x. Qed.

Lemma fsub_finite_inv (x y : float64) :
  is_finite (x - y)%f64 = true -> is_finite x = true /\ is_finite y = true.
Proof. destruct x, y; simpl; auto; discriminate. Qed.

Lemma fsub_of_feq (x y : float64) :
  (x =? y)%f64 = true -> (x - y)%f64 = Float64.zero \/ (x - y)%f64 = NaN.
Proof.
  destruct x, y; simpl; try discriminate; auto.
  intros H. apply Qceqb_eq in H. subst. left. unfold fsub, Float64.zero. simpl.
  f_equal. apply Qcplus_opp_r.
Qed.

Lemma fdiv_singular_not_finite (x y z : float64) :
  (y =? z)%f64 = true -> is_finite (x / (y - z))%f64 = false.
Proof.
  intros H. destruct (fsub_of_feq _ _ H) as [-> | ->].
  - apply fdiv_zero_not_finite.
  - apply fdiv_NaN_not_finite.
Qed.

(** ** GlyphBoxes *)

Lemma GlyphBoxes_loop (f : PlotFields) (ds : list Plotter) (acc : list GlyphBox.t) :
  fold_left
    (fun boxes d =>
       match AsGlyphBoxer d with
       | Some gb => boxes ++ gb f
       | None => boxes
       end) ds acc
  = acc ++ List.concat (map (own_boxes f) ds).
Proof.
  revert acc. induction ds as [|d ds IH]; intros acc; simpl.
  - now rewrite app_nil_r.
  - rewrite IH. unfold own_boxes at 2.
    destruct (AsGlyphBoxer d); simpl; now rewrite ?app_assoc.
Qed.

(** C7. The glyph boxes of a plot are the concatenation, in registration
    order, of the boxes of each registered plotter, a plotter that is no
    GlyphBoxer contributing none: nothing is reordered, dropped or merged
    (the length is the sum of the lengths), every box comes from a plotter,
    and the boxes of the axes are not included: whatever the axes are, a plot
    without plotters has no glyph box. *)
Theorem GlyphBoxes_concat (p : Plot) :
  GlyphBoxes p = List.concat (map (own_boxes (fields p)) (plotters p)) /\
  List.length (GlyphBoxes p)
  = list_sum (map (fun d => List.length (own_boxes (fields p) d)) (plotters p)) /\
  (forall b, In b (GlyphBoxes p) <->
             exists d, In d (plotters p) /\ In b (own_boxes (fields p) d)) /\
  (plotters p = [] -> GlyphBoxes p = []).
Proof.
  assert (E : GlyphBoxes p = List.concat (map (own_boxes (fields p)) (plotters p))).
  { unfold GlyphBoxes. now rewrite GlyphBoxes_loop. }
  split; [exact E|]. split; [|split].
  - rewrite E. clear E. generalize (fields p). intros f.
    induction (plotters p) as [|d ds IH]; simpl; [reflexivity|].
    rewrite length_app, IH. reflexivity.
  - intros b. rewrite E, in_concat. split.
    + intros (l & Hl & Hb). apply in_map_iff in Hl as (d & <- & Hd). eauto.
    + intros (d & Hd & Hb). exists (own_boxes (fields p) d). split; [|exact Hb].
      now apply in_map.
  - intros Hp. rewrite E, Hp. reflexivity.
Qed.

(** ** The selection loops *)

Section ScanFacts.
Variables (A : Type) (key : A -> float64) (ok : A -> bool).
Variable better : float64 -> float64 -> bool.
Hypothesis better_irrefl : forall x, better x x = false.
Hypothesis better_trans :
  forall x y z, better x y = true -> better y z = true -> better x z = true.

Lemma better_asym (x y : float64) : better x y = true -> better y x = false.
Proof.
  intros H. destruct (better y x) eqn:E; [|reflexivity].
  pose proof (better_trans _ _ _ H E) as F. now rewrite better_irrefl in F.
Qed.

(** Either no box qualified against the initial extreme and the initial
    state is returned, or a box of the list was selected: it qualifies and no
    qualifying box has a strictly better edge. *)
Lemma scan_spec (boxes : list A) (m0 : float64) (l0 : A) :
  let st := scan A key ok better boxes m0 l0 in
  ((forall b, In b boxes -> better (key b) m0 && ok b = false) /\ st = (m0, l0))
  \/ (In (snd st) boxes /\ fst st = key (snd st) /\
      better (key (snd st)) m0 && ok (snd st) = true /\
      forall b, In b boxes -> ok b = true -> better (key b) (fst st) = false).
Proof.
  unfold scan. revert m0 l0.
  induction boxes as [|b tl IH]; intros m0 l0; simpl.
  - left. split; [intros b []|reflexivity].
  - assert (Hs : scan_step A key ok better (m0, l0) b
                 = if better (key b) m0 && ok b then (key b, b) else (m0, l0))
      by reflexivity.
    rewrite Hs. clear Hs.
    destruct (better (key b) m0 && ok b) eqn:Hb.
    + apply andb_true_iff in Hb as [Hb1 Hb2]. right.
      destruct (IH (key b) b) as [[Hnone ->] | (Hin & Hm & Hq & Hmin)]; simpl.
      * repeat split; auto.
        -- now rewrite Hb1, Hb2.
        -- intros b' [<- | Hb'] Hok; [apply better_irrefl|].
           specialize (Hnone b' Hb'). rewrite Hok, andb_true_r in Hnone. exact Hnone.
      * apply andb_true_iff in Hq as [Hq1 Hq2].
        repeat split; auto.
        -- rewrite Hq2, andb_true_r. now apply better_trans with (key b).
        -- intros b' [<- | Hb'] Hok; [|now apply Hmin].
           apply better_asym. now rewrite Hm.
    + destruct (IH m0 l0) as [[Hnone ->] | (Hin & Hm & Hq & Hmin)]; simpl.
      * left. split; [|reflexivity]. intros b' [<- | Hb']; auto.
      * right. repeat split; auto.
        intros b' [Heq | Hb'] Hok; [subst b'|now apply Hmin].
        rewrite Hok, andb_true_r in Hb.
        destruct (better (key b) (fst (fold_left (scan_step A key ok better) tl (m0, l0)))) eqn:E;
          [|reflexivity].
        apply andb_true_iff in Hq as [Hq1 _]. rewrite <- Hm in Hq1.
        rewrite (better_trans _ _ _ E Hq1) in Hb. discriminate.
Qed.

Lemma scan_none (boxes : list A) (m0 : float64) (l0 : A) :
  (forall b, In b boxes -> better (key b) m0 && ok b = false) ->
  scan A key ok better boxes m0 l0 = (m0, l0).
Proof.
  intros Hnone.
  destruct (scan_spec boxes m0 l0) as [[_ H] | (Hin & _ & Hq & _)]; [exact H|].
  rewrite (Hnone _ Hin) in Hq. discriminate.
Qed.

Lemma scan_some (boxes : list A) (m0 : float64) (l0 : A) :
  (exists b, In b boxes /\ better (key b) m0 && ok b = true) ->
  let l := snd (scan A key ok better boxes m0 l0) in
  In l boxes /\ better (key l) m0 && ok l = true /\
  forall b, In b boxes -> ok b = true -> better (key b) (key l) = false.
Proof.
  intros (b & Hb & Hq).
  destruct (scan_spec boxes m0 l0) as [[Hnone _] | (Hin & Hm & Hq' & Hmin)].
  - rewrite (Hnone _ Hb) in Hq. discriminate.
  - cbv zeta. split; [exact Hin|]. split; [exact Hq'|].
    rewrite <- Hm. exact Hmin.
Qed.
End ScanFacts.

Lemma fgt_irrefl (x : float64) : (x >? x)%f64 = false.
Proof. apply flt_irrefl. Qed.

Lemma fgt_trans (x y z : float64) :
  (x >? y)%f64 = true -> (y >? z)%f64 = true -> (x >? z)%f64 = true.
Proof. unfold fgt. intros H1 H2. now apply flt_trans with y. Qed.

Lemma leftMost_scan (da : DrawArea.t) (boxes : list GlyphBox.t) :
  leftMost da boxes
  = snd (scan _ (left_edge da) (fun b => (GlyphBox.X b >=? Float64.zero)%f64) flt
           boxes (Point.X (DrawArea.Min da)) GlyphBox.zero).
Proof. reflexivity. Qed.

Lemma rightMost_scan (da : DrawArea.t) (boxes : list GlyphBox.t) :
  rightMost da boxes
  = snd (scan _ (right_edge da) (fun b => (GlyphBox.X b <=? Float64.one)%f64) fgt
           boxes (Point.X (DrawArea.Max da)) GlyphBox.atX1).
Proof. reflexivity. Qed.

Lemma bottomMost_scan (da : DrawArea.t) (boxes : list GlyphBox.t) :
  bottomMost da boxes
  = snd (scan _ (bottom_edge da) (fun b => (GlyphBox.Y b >=? Float64.zero)%f64) flt
           boxes (Point.Y (DrawArea.Min da)) GlyphBox.zero).
Proof. reflexivity. Qed.

Lemma topMost_scan (da : DrawArea.t) (boxes : list GlyphBox.t) :
  topMost da boxes
  = snd (scan _ (top_edge da) (fun b => (GlyphBox.Y b <=? Float64.one)%f64) fgt
           boxes (Point.Y (DrawArea.Max da)) GlyphBox.atY1).
Proof. reflexivity. Qed.

(** When no box overhangs an edge the sentinel of that edge is returned. *)
Lemma leftMost_sentinel (da : DrawArea.t) (boxes : list GlyphBox.t) :
  (forall b, In b boxes ->
     (left_edge da b <? Point.X (DrawArea.Min da))%f64
     && (GlyphBox.X b >=? Float64.zero)%f64 = false) ->
  leftMost da boxes = GlyphBox.zero.
Proof.
  intros H. rewrite leftMost_scan, scan_none; [reflexivity| apply flt_irrefl | apply flt_trans | exact H].
Qed.

Lemma rightMost_sentinel (da : DrawArea.t) (boxes : list GlyphBox.t) :
  (forall b, In b boxes ->
     (right_edge da b >? Point.X (DrawArea.Max da))%f64
     && (GlyphBox.X b <=? Float64.one)%f64 = false) ->
  rightMost da boxes = GlyphBox.atX1.
Proof.
  intros H. rewrite rightMost_scan, scan_none; [reflexivity| apply fgt_irrefl | apply fgt_trans | exact H].
Qed.

Lemma bottomMost_sentinel (da : DrawArea.t) (boxes : list GlyphBox.t) :
  (forall b, In b boxes ->
     (bottom_edge da b <? Point.Y (DrawArea.Min da))%f64
     && (GlyphBox.Y b >=? Float64.zero)%f64 = false) ->
  bottomMost da boxes = GlyphBox.zero.
Proof.
  intros H. rewrite bottomMost_scan, scan_none; [reflexivity| apply flt_irrefl | apply flt_trans | exact H].
Qed.

Lemma topMost_sentinel (da : DrawArea.t) (boxes : list GlyphBox.t) :
  (forall b, In b boxes ->
     (top_edge da b >? Point.Y (DrawArea.Max da))%f64
     && (GlyphBox.Y b <=? Float64.one)%f64 = false) ->
  topMost da boxes = GlyphBox.atY1.
Proof.
  intros H. rewrite topMost_scan, scan_none; [reflexivity| apply fgt_irrefl | apply fgt_trans | exact H].
Qed.

(** ** The padding pass *)

(** Closed goals on the executable model are settled by evaluation. *)
Ltac by_eval := vm_compute; first [reflexivity | discriminate | congruence].

(** [padX] and [padY] in terms of the two selected boxes and the two target
    edges. *)
Lemma padX_unfold `{External} (p : Plot) (da : DrawArea.t) :
  padX p da
  = let lx := GlyphBox.X (padX_left p da) in
    let rx := GlyphBox.X (padX_right p da) in
    DrawArea.mk (DrawArea.Canvas da)
      (Rect.mk
         (Point.mk (code_innerMin lx rx (padX_minx p da) (padX_maxx p da))
                   (Point.Y (DrawArea.Min da)))
         (Point.mk (code_innerSize lx rx (padX_minx p da) (padX_maxx p da))
                   (Point.Y (DrawArea.Size da)))).
Proof. reflexivity. Qed.

Lemma padY_unfold `{External} (p : Plot) (da : DrawArea.t) :
  padY p da
  = let by_ := GlyphBox.Y (padY_bottom p da) in
    let ty := GlyphBox.Y (padY_top p da) in
    DrawArea.mk (DrawArea.Canvas da)
      (Rect.mk
         (Point.mk (Point.X (DrawArea.Min da))
                   (code_innerMin by_ ty (padY_miny p da) (padY_maxy p da)))
         (Point.mk (Point.X (DrawArea.Size da))
                   (code_innerSize by_ ty (padY_miny p da) (padY_maxy p da)))).
Proof. reflexivity. Qed.


(** C3, as worded, fails: one label anchored at the middle of a region 200
    wide and hanging over both sides is the left-most and the right-most
    box, so [lx = rx = 1/2], and the region returned is not the input: its
    origin is [-Inf] and its width [+Inf]. *)
Lemma singular_skip_as_worded_fails :
  ~ @singular_skip_as_worded plain_external
      (Add empty_plot [boxer 0 [box (1 # 2) (1 # 2) (-1000) 0 2000 0]])
      (region 0 0 200 100).
Proof.
  unfold singular_skip_as_worded. intros H.
  assert (F : Point.X (DrawArea.Min
                (@padX plain_external
                   (Add empty_plot [boxer 0 [box (1 # 2) (1 # 2) (-1000) 0 2000 0]])
                   (region 0 0 200 100))) = NInf) by by_eval.
  rewrite H in F; [|by_eval]. revert F. by_eval.
Qed.

(** C3, amended.  The padding pass has no special case for coinciding
    anchors: when [lx == rx] the divisor [lx - rx] is zero (or [NaN], for
    infinite anchors), the division is carried out without a fault, and the
    region returned has an origin and a size on that axis that are not
    finite ([+Inf], [-Inf] or [NaN]); the other axis is copied from the
    input.  The same holds for the vertical pass when [by == ty]. *)
Theorem pad_singular_not_finite `{External} (p : Plot) (da : DrawArea.t) :
  ((GlyphBox.X (padX_left p da) =? GlyphBox.X (padX_right p da))%f64 = true ->
   is_finite (Point.X (DrawArea.Min (padX p da))) = false /\
   is_finite (Point.X (DrawArea.Size (padX p da))) = false /\
   Point.Y (DrawArea.Min (padX p da)) = Point.Y (DrawArea.Min da) /\
   Point.Y (DrawArea.Size (padX p da)) = Point.Y (DrawArea.Size da)) /\
  ((GlyphBox.Y (padY_bottom p da) =? GlyphBox.Y (padY_top p da))%f64 = true ->
   is_finite (Point.Y (DrawArea.Min (padY p da))) = false /\
   is_finite (Point.Y (DrawArea.Size (padY p da))) = false /\
   Point.X (DrawArea.Min (padY p da)) = Point.X (DrawArea.Min da) /\
   Point.X (DrawArea.Size (padY p da)) = Point.X (DrawArea.Size da)).
Proof.
  split; intros Heq.
  - rewrite padX_unfold. cbn zeta. unfold DrawArea.Min, DrawArea.Size. simpl.
    assert (Hn : is_finite
                   (code_innerMin (GlyphBox.X (padX_left p da))
                      (GlyphBox.X (padX_right p da)) (padX_minx p da)
                      (padX_maxx p da)) = false)
      by (unfold code_innerMin; now apply fdiv_singular_not_finite).
    repeat split; [exact Hn|].
    unfold code_innerSize.
    match goal with |- is_finite (?a - ?b)%f64 = false =>
      destruct (is_finite (a - b)%f64) eqn:E; [|reflexivity];
      apply fsub_finite_inv in E as [_ E]; congruence
    end.
  - rewrite padY_unfold. cbn zeta. unfold DrawArea.Min, DrawArea.Size. simpl.
    assert (Hn : is_finite
                   (code_innerMin (GlyphBox.Y (padY_bottom p da))
                      (GlyphBox.Y (padY_top p da)) (padY_miny p da)
                      (padY_maxy p da)) = false)
      by (unfold code_innerMin; now apply fdiv_singular_not_finite).
    repeat split; [exact Hn|].
    unfold code_innerSize.
    match goal with |- is_finite (?a - ?b)%f64 = false =>
      destruct (is_finite (a - b)%f64) eqn:E; [|reflexivity];
      apply fsub_finite_inv in E as [_ E]; congruence
    end.
Qed.

(** The singular case at the label that overhangs both sides: the origin
    returned is [-Inf] and the width [+Inf]. *)
Lemma pad_singular_not_finite_witness :
  let p := Add empty_plot [boxer 0 [box (1 # 2) (1 # 2) (-1000) 0 2000 0]] in
  let da := region 0 0 200 100 in
  (GlyphBox.X (padX_left p da) =? GlyphBox.X (@padX_right plain_external p da))%f64
  = true /\
  is_finite (Point.X (DrawArea.Min (@padX plain_external p da))) = false /\
  is_finite (Point.X (DrawArea.Size (@padX plain_external p da))) = false.
Proof.
  intros p da.
  assert (Heq : (GlyphBox.X (padX_left p da)
                 =? GlyphBox.X (@padX_right plain_external p da))%f64 = true)
    by (vm_compute; reflexivity).
  destruct (@pad_singular_not_finite plain_external p da) as [HX _].
  destruct (HX Heq) as (H1 & H2 & _).
  repeat split; assumption.
Defined.

(** ** The left-most box *)

(** C5, as worded, fails: the horizontal axis has a tick label anchored at
    [0] that hangs 5 units over the left edge, the plot has no plotter; the
    label is a candidate with anchor [>= 0], yet [padX] takes the sentinel
    as its left-most box. *)
Lemma leftmost_as_worded_fails :
  ~ @leftmost_as_worded ticked_external empty_plot (region 0 0 200 100).
Proof.
  unfold leftmost_as_worded. intros [_ H].
  destruct H as [H _]; [by_eval|].
  revert H. vm_compute. intros [H | [H | []]]; discriminate.
Qed.

(** C5, amended.  In the horizontal padding pass the left-most box is
    selected among the glyph boxes of the plotters only (the boxes of the
    x axis are appended afterwards and take part in the selection of the
    right-most box only).  The candidates are the boxes with anchor [X >= 0]
    whose absolute left edge [region.X(Anchor.X) + OffsetRect.Min.X] is
    strictly left of the region's [Min.X]: when there is none the sentinel
    (anchor 0, zero offset) is used, otherwise a candidate is selected and
    no box with anchor [X >= 0] has a left edge strictly smaller than
    its. *)
Theorem padX_left_selection (p : Plot) (da : DrawArea.t) :
  let overhangs b :=
    (left_edge da b <? Point.X (DrawArea.Min da))%f64
    && (GlyphBox.X b >=? Float64.zero)%f64 in
  let l := padX_left p da in
  l = leftMost da (GlyphBoxes p) /\
  (forall E : External,
     @padX_right E p da
     = rightMost da (GlyphBoxes p ++ @horizontalAxis_GlyphBoxes E (X (fields p)))) /\
  ((forall b, In b (GlyphBoxes p) -> overhangs b = false) -> l = GlyphBox.zero) /\
  ((exists b, In b (GlyphBoxes p) /\ overhangs b = true) ->
   In l (GlyphBoxes p) /\ overhangs l = true /\
   forall b, In b (GlyphBoxes p) -> (GlyphBox.X b >=? Float64.zero)%f64 = true ->
             (left_edge da b <? left_edge da l)%f64 = false).
Proof.
  intros overhangs l. split; [reflexivity|]. split; [reflexivity|]. split.
  - intros Hnone. now apply leftMost_sentinel.
  - intros Hsome. unfold l, padX_left. rewrite leftMost_scan.
    apply (scan_some _ (left_edge da)
             (fun b => (GlyphBox.X b >=? Float64.zero)%f64) flt
             flt_irrefl flt_trans (GlyphBoxes p)
             (Point.X (DrawArea.Min da)) GlyphBox.zero Hsome).
Qed.

(** Two plotter labels hang over the left edge, by 3 and by 8: the
    left-most box is the one that hangs over by 8. *)
Lemma padX_left_selection_witness :
  let b3 := box 0 0 (-3) 0 6 0 in
  let b8 := box 0 1 (-8) 0 16 0 in
  let p := Add empty_plot [boxer 0 [b3]; ranger 1 (ofZ 0) (ofZ 1) (ofZ 0) (ofZ 1);
                           boxer 2 [b8]] in
  padX_left p (region 0 0 200 100) = b8.
Proof.
  intros b3 b8 p.
  destruct (padX_left_selection p (region 0 0 200 100)) as (_ & _ & _ & Hsel).
  destruct Hsel as (Hin & _ & Hmin).
  - exists b3. split; [left; reflexivity | vm_compute; reflexivity].
  - destruct Hin as [E | [E | []]]; [|symmetry; exact E].
    specialize (Hmin b8 (or_intror (or_introl eq_refl)) eq_refl).
    rewrite <- E in Hmin. vm_compute in Hmin. discriminate Hmin.
Defined.

(** ** Finite arithmetic *)

(** Orders and equations between rational expressions are sent to [Q] and
    decided there. *)
Ltac qc_to_q :=
  unfold Qclt, Qcle, Qcminus, Qcdiv in *;
  cbn [this Qcplus Qcmult Qcopp Q2Qc] in *;
  rewrite ?Qred_correct in *; unfold inject_Z in *.

Ltac qc_lra :=
  match goal with
  | |- @eq Qc _ _ => apply Qc_is_canon; qc_to_q; lra
  | |- ~ @eq Qc ?x ?y =>
      let F := fresh in
      intros F; assert (this x == this y)%Q by (rewrite F; reflexivity);
      clear F; qc_to_q; lra
  | |- _ => qc_to_q; lra
  end.

Lemma Qcltb_true (x y : Qc) : x < y -> Qcltb x y = true.
Proof. apply Qcltb_lt. Qed.

Lemma Qcltb_false (x y : Qc) : ~ x < y -> Qcltb x y = false.
Proof.
  intros H. destruct (Qcltb x y) eqn:E; [|reflexivity]. now apply Qcltb_lt in E.
Qed.

Lemma Qceqb_true (x y : Qc) : x = y -> Qceqb x y = true.
Proof. apply Qceqb_eq. Qed.

Lemma Qceqb_false (x y : Qc) : x <> y -> Qceqb x y = false.
Proof. apply Qceqb_neq. Qed.

(** Decide the comparisons of a goal one after the other, reducing the
    conditionals they guard. *)
Ltac decide_cmp :=
  repeat (match goal with
          | |- context [Qcltb ?x ?y] =>
              first [ rewrite (Qcltb_true x y) by qc_lra
                    | rewrite (Qcltb_false x y) by qc_lra ]
          | |- context [Qceqb ?x ?y] =>
              first [ rewrite (Qceqb_true x y) by qc_lra
                    | rewrite (Qceqb_false x y) by qc_lra ]
          end; cbn [andb orb fst snd]).

(** Expose the rational arithmetic under the geometry, leaving the
    operations on rationals folded. *)
Ltac f64_unfold :=
  cbv beta iota zeta delta
    [leftMost leftMost_step rightMost rightMost_step bottomMost bottomMost_step
     topMost topMost_step fold_left fst snd app
     left_edge right_edge bottom_edge top_edge
     DrawArea.X DrawArea.Y DrawArea.Min DrawArea.Size DrawArea.Max DrawArea.Rect
     DrawArea.Canvas
     Rect.Min Rect.Size Rect.Max Point.X Point.Y
     GlyphBox.X GlyphBox.Y GlyphBox.Min GlyphBox.Size GlyphBox.Rect
     GlyphBox.zero GlyphBox.atX1 GlyphBox.atY1 Rect.zero Point.zero
     Float64.zero Float64.one ofZ
     fadd fsub fmul fopp fdiv flt fle fge fgt feq].

Lemma Qcminus_neq_0 (x y : Qc) : x <> y -> x - y <> 0.
Proof.
  intros Hne F. apply Hne.
  transitivity (x - y + y); [ring | rewrite F; ring].
Qed.

(** On finite arguments with distinct anchors the closed forms are the
    finite solution of the linear system: origin
    [(lx*maxx - rx*minx)/(lx - rx)] and size [(maxx - minx)/(rx - lx)]. *)
Lemma code_inner_finite (lx rx minx maxx : Qc) :
  lx <> rx ->
  code_innerMin (Fin lx) (Fin rx) (Fin minx) (Fin maxx)
  = Fin ((lx * maxx - rx * minx) / (lx - rx)) /\
  code_innerSize (Fin lx) (Fin rx) (Fin minx) (Fin maxx)
  = Fin ((maxx - minx) / (rx - lx)).
Proof.
  intros Hne.
  pose proof (Qcminus_neq_0 _ _ Hne) as Hd.
  assert (Hd' : rx - lx <> 0) by (apply Qcminus_neq_0; congruence).
  unfold code_innerSize, code_innerMin.
  unfold fsub, fmul, fadd, fopp, fdiv, Float64.one.
  change (lx + - rx) with (lx - rx).
  rewrite (Qceqb_false _ _ Hd).
  split; f_equal.
  field. split; assumption.
Qed.

(** The region returned by [padX] places the left edge of the left-most box
    on the left edge of the input region and the right edge of the
    right-most box on its right edge, whenever the values involved are finite
    and the two anchors differ. *)
Lemma padX_exact `{External} (p : Plot) (da : DrawArea.t)
  (a s lx lo rx ro rs : Qc) :
  Point.X (DrawArea.Min da) = Fin a ->
  Point.X (DrawArea.Size da) = Fin s ->
  GlyphBox.X (padX_left p da) = Fin lx ->
  Point.X (GlyphBox.Min (padX_left p da)) = Fin lo ->
  GlyphBox.X (padX_right p da) = Fin rx ->
  Point.X (GlyphBox.Min (padX_right p da)) = Fin ro ->
  Point.X (GlyphBox.Size (padX_right p da)) = Fin rs ->
  lx <> rx ->
  left_edge (padX p da) (padX_left p da) = Point.X (DrawArea.Min da) /\
  right_edge (padX p da) (padX_right p da) = Point.X (DrawArea.Max da).
Proof.
  intros Ha Hs Hlx Hlo Hrx Hro Hrs Hne.
  assert (Hd : rx - lx <> 0) by (apply Qcminus_neq_0; congruence).
  assert (Hd' : lx - rx <> 0) by (apply Qcminus_neq_0; congruence).
  unfold left_edge, right_edge. rewrite padX_unfold. cbn zeta.
  unfold padX_minx, padX_maxx, DrawArea.Max, Rect.Max.
  unfold DrawArea.Min, DrawArea.Size in *.
  rewrite Hlx, Hlo, Hrx, Hro, Hrs, Ha, Hs.
  cbn [Point.X].
  change (Fin a - Fin lo)%f64 with (Fin (a - lo)).
  change (Fin a + Fin s - (Fin ro + Fin rs))%f64 with (Fin (a + s - (ro + rs))).
  destruct (code_inner_finite lx rx (a - lo) (a + s - (ro + rs)) Hne) as [-> ->].
  f64_unfold. split; f_equal; field; repeat split; assumption.
Qed.

(** The closed forms solve the linear system of the padding pass: with
    origin [code_innerMin] and size [code_innerSize] the transform
    [f |-> origin + f*size] sends [lx] to [minx] and [rx] to [maxx]. *)
Lemma code_inner_solves (lx rx minx maxx : float64) :
  is_finite lx = true -> is_finite rx = true ->
  is_finite minx = true -> is_finite maxx = true ->
  (lx =? rx)%f64 = false ->
  (code_innerMin lx rx minx maxx + lx * code_innerSize lx rx minx maxx)%f64 = minx /\
  (code_innerMin lx rx minx maxx + rx * code_innerSize lx rx minx maxx)%f64 = maxx.
Proof.
  destruct lx as [lx| | |], rx as [rx| | |], minx as [minx| | |],
    maxx as [maxx| | |]; try discriminate.
  intros _ _ _ _ Hne. simpl in Hne. apply Qceqb_neq in Hne.
  assert (Hd : rx - lx <> 0) by (apply Qcminus_neq_0; congruence).
  assert (Hd' : lx - rx <> 0) by (apply Qcminus_neq_0; congruence).
  destruct (code_inner_finite lx rx minx maxx Hne) as [-> ->].
  f64_unfold. split; f_equal; field; repeat split; assumption.
Qed.



(** The selection on the two labels of the padding example, in either
    order. *)
Lemma two_labels_selection (a : Qc) (cv : Surface)
  (y0 h0 yL mL sL yR mR sR : float64) :
  let da := DrawArea.mk cv (Rect.mk (Point.mk (Fin a) y0) (Point.mk (ofZ 200) h0)) in
  let bL := GlyphBox.mk Float64.zero yL
              (Rect.mk (Point.mk (ofZ (-10)) mL) (Point.mk (ofZ 10) sL)) in
  let bR := GlyphBox.mk Float64.one yR
              (Rect.mk (Point.mk Float64.zero mR) (Point.mk (ofZ 15) sR)) in
  leftMost da [bL; bR] = bL /\ leftMost da [bR; bL] = bL /\
  rightMost da [bL; bR] = bR /\ rightMost da [bR; bL] = bR.
Proof.
  intros da bL bR. subst da bL bR.
  repeat split; f64_unfold; decide_cmp; reflexivity.
Qed.



(** ** The sentinels *)


Lemma Rect_finite_inv (r : Rect.t) :
  Rect_finite r = true ->
  exists a b s t : Qc,
    r = Rect.mk (Point.mk (Fin a) (Fin b)) (Point.mk (Fin s) (Fin t)).
Proof.
  destruct r as [[mx my] [sx sy]]. unfold Rect_finite. simpl.
  destruct mx, my, sx, sy; simpl; try discriminate. eauto.
Qed.



(** ** Add *)

Lemma bound_Add_range (c : Bound) (f : PlotFields) (d : Plotter) :
  bound c (Add_range f d)
  = match DataRange d with
    | Some r => widen c (bound c f) (component c r)
    | None => bound c f
    end.
Proof.
  unfold Add_range.
  destruct (DataRange d) as [[[[xmin xmax] ymin] ymax]|]; [|reflexivity].
  destruct c; reflexivity.
Qed.

(** The loop of [Add] folds [math.Min] or [math.Max] over the reported
    values, in the order of the arguments. *)
Lemma bound_Add_loop (c : Bound) (ps : list Plotter) (f : PlotFields) :
  bound c (fold_left Add_range ps f) = fold_left (widen c) (reports c ps) (bound c f).
Proof.
  revert f. induction ps as [|d ps IH]; intros f; [reflexivity|].
  simpl. rewrite IH, bound_Add_range. unfold reports at 2. simpl.
  destruct (DataRange d); simpl; reflexivity.
Qed.

Lemma bound_Add (c : Bound) (p : Plot) (ps : list Plotter) :
  bound c (fields (Add p ps))
  = fold_left (widen c) (reports c ps) (bound c (fields p)).
Proof. unfold Add. simpl. apply bound_Add_loop. Qed.

Lemma fle_trans (x y z : float64) :
  (x <=? y)%f64 = true -> (y <=? z)%f64 = true -> (x <=? z)%f64 = true.
Proof.
  unfold fle. destruct x, y, z; simpl; try congruence; try discriminate; auto.
  rewrite !orb_true_iff, !Qcltb_lt, !Qceqb_eq.
  intros [H1 | ->] [H2 | ->]; auto. left. now apply Qclt_trans with q0.
Qed.

Lemma covers_trans (c : Bound) (x y z : float64) :
  covers c x y = true -> covers c y z = true -> covers c x z = true.
Proof. destruct c; simpl; eauto using fle_trans. Qed.

Lemma covers_refl (c : Bound) (x : float64) : IsNaN x = false -> covers c x x = true.
Proof. destruct c; simpl; apply fle_refl. Qed.

Lemma covers_NaN_l (c : Bound) (x : float64) : covers c NaN x = false.
Proof. destruct c; simpl; auto using fle_NaN_l, fle_NaN_r. Qed.

(** [math.Min] and [math.Max] return one of their arguments. *)
Lemma widen_choice (c : Bound) (b v : float64) :
  widen c b v = b \/ widen c b v = v.
Proof.
  destruct c; simpl; unfold math_Min, math_Max, fgt;
    destruct b, v; simpl; auto;
    match goal with |- context [if ?t then _ else _] => destruct t; auto end.
Qed.

(** On two numbers the result is a number and reaches both. *)
Lemma widen_numbers (c : Bound) (b v : float64) :
  IsNaN b = false -> IsNaN v = false ->
  IsNaN (widen c b v) = false /\
  covers c (widen c b v) b = true /\
  covers c (widen c b v) v = true.
Proof.
  intros Hb Hv.
  destruct c; simpl; unfold math_Min, math_Max, fgt;
    destruct b, v; simpl in *; try discriminate;
    try match goal with
        | |- context [if Qcltb ?x ?y then _ else _] =>
            destruct (Qcltb x y) eqn:E
        end;
    repeat split; try reflexivity;
    try (apply flt_fle; exact E);
    try (apply fle_refl; reflexivity);
    try (apply fle_of_not_flt; [reflexivity | reflexivity | exact E]).
Qed.

Lemma widen_loop_numbers (c : Bound) (vs : list float64) (b : float64) :
  IsNaN b = false ->
  (forall v, In v vs -> IsNaN v = false) ->
  let b' := fold_left (widen c) vs b in
  IsNaN b' = false /\
  covers c b' b = true /\
  (forall v, In v vs -> covers c b' v = true) /\
  (b' = b \/ In b' vs).
Proof.
  revert b. induction vs as [|v vs IH]; intros b Hb Hvs; simpl.
  - repeat split; auto using covers_refl; try tauto.
  - destruct (widen_numbers c b v Hb (Hvs v (or_introl eq_refl))) as (N & Cb & Cv).
    destruct (IH (widen c b v) N (fun u Hu => Hvs u (or_intror Hu)))
      as (N' & C' & Call & Hch).
    repeat split; auto.
    + eauto using covers_trans.
    + intros u [<- | Hu]; eauto using covers_trans.
    + destruct Hch as [-> | Hin]; auto.
      destruct (widen_choice c b v) as [-> | ->]; auto.
Qed.

(** A [NaN] met by the loop stays, as long as no absorbing infinity is
    met. *)
Lemma widen_NaN (c : Bound) (b v : float64) :
  b <> absorbing c -> v <> absorbing c ->
  b = NaN \/ v = NaN -> widen c b v = NaN.
Proof.
  intros Hb Hv [-> | ->]; destruct c; simpl in *;
    first [ destruct v | destruct b ]; simpl; congruence.
Qed.

Lemma widen_not_absorbing (c : Bound) (b v : float64) :
  b <> absorbing c -> v <> absorbing c -> widen c b v <> absorbing c.
Proof. intros Hb Hv. destruct (widen_choice c b v) as [-> | ->]; assumption. Qed.

Lemma widen_loop_NaN (c : Bound) (vs : list float64) (b : float64) :
  b <> absorbing c ->
  ~ In (absorbing c) vs ->
  b = NaN \/ In NaN vs ->
  fold_left (widen c) vs b = NaN.
Proof.
  revert b. induction vs as [|v vs IH]; intros b Hb Hvs HN; simpl.
  - destruct HN as [-> | []]. reflexivity.
  - assert (Hv : v <> absorbing c) by (intros ->; apply Hvs; now left).
    apply IH.
    + now apply widen_not_absorbing.
    + intros F. apply Hvs. now right.
    + destruct HN as [-> | [-> | Hin]]; auto; left; apply widen_NaN; auto.
Qed.

Lemma finite_not_absorbing (c : Bound) (v : float64) :
  is_finite v = true -> v <> absorbing c.
Proof. destruct c, v; simpl; congruence. Qed.

Lemma NaN_not_absorbing (c : Bound) : NaN <> absorbing c.
Proof. destruct c; discriminate. Qed.

Lemma Add_all_snoc (p : Plot) (calls : list (list Plotter)) (ps : list Plotter) :
  Add_all p (calls ++ [ps]) = Add (Add_all p calls) ps.
Proof. unfold Add_all. now rewrite fold_left_app. Qed.

(** Bounds that are numbers stay numbers along calls that report numbers,
    and never move inwards. *)
Lemma Add_all_numbers (calls : list (list Plotter)) (p : Plot) :
  (forall c, IsNaN (bound c (fields p)) = false) ->
  (forall ps c v, In ps calls -> In v (reports c ps) -> IsNaN v = false) ->
  forall c,
    IsNaN (bound c (fields (Add_all p calls))) = false /\
    covers c (bound c (fields (Add_all p calls))) (bound c (fields p)) = true.
Proof.
  induction calls as [|ps calls IH] using rev_ind; intros Hp Hcalls c.
  - simpl. auto using covers_refl.
  - rewrite Add_all_snoc, bound_Add.
    assert (Hbefore : forall qs c v, In qs calls -> In v (reports c qs) -> IsNaN v = false)
      by (intros qs c' v Hq; apply Hcalls, in_or_app; now left).
    assert (Hps : forall v, In v (reports c ps) -> IsNaN v = false)
      by (intros v; apply Hcalls, in_or_app; right; now left).
    destruct (IH Hp Hbefore c) as [N C].
    destruct (widen_loop_numbers c (reports c ps) _ N Hps) as (N' & C' & _).
    split; [exact N'|]. eauto using covers_trans.
Qed.

(** C6, as worded, fails: on a new plot one plotter whose data range has
    [NaN] as its [xmin] makes [X.Min] a [NaN], which is not [<=] the
    [+Inf] it replaces. *)
Lemma monotone_as_worded_fails :
  ~ monotone_as_worded empty_plot [ranger 0 NaN (ofZ 1) (ofZ 0) (ofZ 1)].
Proof.
  intros H. specialize (H XMin). revert H. by_eval.
Qed.

(** C6, amended.  For every sequence of [Add] calls in which the axis bounds
    at the start and every reported range component are numbers (not
    [NaN]), at every call of the sequence: the plotters given are appended
    in order, whether they are DataRangers or not; each of the four bounds
    stays a number, does not move inwards ([Min] does not increase, [Max]
    does not decrease, with respect to the previous call and to the start),
    reaches every value the given DataRangers report for it, and is either
    unchanged or one of these values, so it is widened exactly enough. *)
Theorem Add_widens_monotonically (p : Plot) (calls : list (list Plotter)) :
  (forall c, IsNaN (bound c (fields p)) = false) ->
  (forall ps c v, In ps calls -> In v (reports c ps) -> IsNaN v = false) ->
  forall before ps after, calls = before ++ ps :: after ->
    let q := Add_all p before in
    let q' := Add q ps in
    Add_all p (before ++ [ps]) = q' /\
    plotters q' = plotters q ++ ps /\
    forall c,
      IsNaN (bound c (fields q')) = false /\
      covers c (bound c (fields q')) (bound c (fields q)) = true /\
      covers c (bound c (fields q')) (bound c (fields p)) = true /\
      (forall v, In v (reports c ps) -> covers c (bound c (fields q')) v = true) /\
      (bound c (fields q') = bound c (fields q)
       \/ In (bound c (fields q')) (reports c ps)).
Proof.
  intros Hp Hcalls before ps after -> q q'.
  split; [apply Add_all_snoc|]. split; [reflexivity|]. intros c.
  assert (Hbefore : forall qs c v, In qs before -> In v (reports c qs) -> IsNaN v = false)
    by (intros qs c' v Hq; apply Hcalls, in_or_app; now left).
  assert (Hps : forall v, In v (reports c ps) -> IsNaN v = false)
    by (intros v; apply Hcalls, in_or_app; right; now left).
  destruct (Add_all_numbers before p Hp Hbefore c) as [N C].
  unfold q'. rewrite bound_Add.
  destruct (widen_loop_numbers c (reports c ps) _ N Hps) as (N' & C' & Call & Hch).
  repeat split; auto. eauto using covers_trans.
Qed.

(** Two calls on a new plot: the second widens [X.Min] from 1 to -1 and
    [Y.Max] from 3 to 9, and leaves [X.Max] at 5. *)
Lemma Add_widens_monotonically_witness :
  let first := [ranger 0 (ofZ 1) (ofZ 5) (ofZ 2) (ofZ 3); boxer 1 []] in
  let second := [ranger 2 (ofZ (-1)) (ofZ 2) (ofZ 0) (ofZ 9)] in
  let q := Add_all empty_plot [first] in
  let q' := Add q second in
  map PlotterId (plotters q') = [0; 1; 2]%nat /\
  covers XMin (bound XMin (fields q')) (bound XMin (fields q)) = true /\
  covers XMax (bound XMax (fields q')) (bound XMax (fields q)) = true /\
  bound XMin (fields q') = ofZ (-1) /\
  bound XMax (fields q') = ofZ 5 /\
  bound YMax (fields q') = ofZ 9.
Proof.
  intros first second q q'.
  assert (H1 : forall c, IsNaN (bound c (fields empty_plot)) = false)
    by (intros c; destruct c; reflexivity).
  assert (H2 : forall ps c v, In ps [first; second] -> In v (reports c ps) ->
                              IsNaN v = false).
  { intros ps c v [<- | [<- | []]] Hv; destruct c; simpl in Hv;
      repeat (destruct Hv as [<- | Hv]; [reflexivity|]); destruct Hv. }
  pose proof (Add_widens_monotonically empty_plot [first; second] H1 H2
                [first] second [] eq_refl) as (_ & Hp & Hc).
  destruct (Hc XMin) as (_ & C1 & _). destruct (Hc XMax) as (_ & C2 & _).
  split; [reflexivity|]. split; [exact C1|]. split; [exact C2|].
  repeat split; reflexivity.
Defined.

(** C9, as worded, fails: when the first plotter of a call reports [NaN]
    as [xmin] and the second [-Inf], [math.Min(NaN, -Inf)] is [-Inf]: the
    bound does not become [NaN]. *)
Lemma NaN_propagates_as_worded_fails :
  ~ NaN_propagates_as_worded empty_plot
      [ranger 0 NaN (ofZ 1) (ofZ 0) (ofZ 1); ranger 1 NInf (ofZ 1) (ofZ 0) (ofZ 1)].
Proof.
  intros H. specialize (H XMin). revert H. vm_compute. intros H.
  discriminate H. now left.
Qed.

(** C9, amended.  If a plotter given to [Add] reports [NaN] for a bound,
    and neither the bound before the call nor any value reported for it in
    the call is the infinity that [math.Min] (or [math.Max]) returns
    whatever its other argument is ([-Inf] for a [Min], [+Inf] for a [Max]),
    the bound becomes [NaN]; it remains [NaN] through all subsequent [Add]
    calls that report finite values; and the ordering of the widening
    property fails at the call and after it ([NaN] is [<=] nothing), which
    is why that property needs the precondition that every reported
    component is a number. *)
Theorem Add_NaN_sticks (c : Bound) (p : Plot) (ps : list Plotter)
  (later : list (list Plotter)) :
  In NaN (reports c ps) ->
  bound c (fields p) <> absorbing c ->
  ~ In (absorbing c) (reports c ps) ->
  (forall qs v, In qs later -> In v (reports c qs) -> is_finite v = true) ->
  bound c (fields (Add p ps)) = NaN /\
  bound c (fields (Add_all (Add p ps) later)) = NaN /\
  covers c (bound c (fields (Add p ps))) (bound c (fields p)) = false /\
  covers c (bound c (fields (Add_all (Add p ps) later)))
           (bound c (fields (Add p ps))) = false.
Proof.
  intros HN Hb Habs Hlater.
  assert (E1 : bound c (fields (Add p ps)) = NaN).
  { rewrite bound_Add. apply widen_loop_NaN; auto. }
  assert (E2 : bound c (fields (Add_all (Add p ps) later)) = NaN).
  { revert Hlater. generalize (Add p ps) E1. clear.
    induction later as [|qs later IH] using rev_ind; intros q Hq Hlater.
    - exact Hq.
    - rewrite Add_all_snoc, bound_Add. apply widen_loop_NaN.
      + rewrite IH; [apply NaN_not_absorbing | exact Hq |].
        intros rs v Hrs. apply Hlater, in_or_app. now left.
      + intros F. apply (finite_not_absorbing c (absorbing c)); [|reflexivity].
        apply (Hlater qs); [apply in_or_app; right; now left | exact F].
      + left. apply IH; [exact Hq|].
        intros rs v Hrs. apply Hlater, in_or_app. now left. }
  rewrite E2, E1. auto using covers_NaN_l.
Qed.

(** A plotter reporting [NaN] as [ymax], followed by a call with a finite
    range: [Y.Max] is [NaN] after the first call and after the second. *)
Lemma Add_NaN_sticks_witness :
  let p := Add empty_plot [ranger 0 (ofZ 0) (ofZ 1) (ofZ 0) NaN] in
  bound YMax (fields p) = NaN /\
  bound YMax (fields (Add_all p [[ranger 1 (ofZ 0) (ofZ 9) (ofZ 0) (ofZ 9)]])) = NaN.
Proof.
  intros p.
  destruct (Add_NaN_sticks YMax empty_plot [ranger 0 (ofZ 0) (ofZ 1) (ofZ 0) NaN]
              [[ranger 1 (ofZ 0) (ofZ 9) (ofZ 0) (ofZ 9)]])
    as (H1 & H2 & _).
  - simpl. now left.
  - discriminate.
  - simpl. intros [F | []]. discriminate F.
  - intros qs v [<- | []] [<- | []]. reflexivity.
  - split; assumption.
Defined.

(** ** Draw *)

Section Runs.
Context {A B : Type}.

Lemma runs_ret (a : A) (w : World) (Q : A -> World -> Prop) :
  Q a w -> runs (ret a) w Q.
Proof. intros HQ. exists a, w. split; [reflexivity | exact HQ]. Qed.

Lemma runs_bind (c : M A) (k : A -> M B) (w : World) (Q : B -> World -> Prop) :
  runs c w (fun a w' => runs (k a) w' Q) -> runs (bind c k) w Q.
Proof.
  intros (a & w' & Hc & b & w'' & Hk & HQ).
  exists b, w''. split; [|exact HQ]. unfold bind. now rewrite Hc.
Qed.

Lemma runs_weaken (c : M A) (w : World) (Q Q' : A -> World -> Prop) :
  runs c w Q -> (forall a w', Q a w' -> Q' a w') -> runs c w Q'.
Proof. intros (a & w' & Hc & HQ) HQQ. exists a, w'. auto. Qed.
End Runs.

Lemma runs_load (a : nat) (v : DrawArea.t) (w : World)
  (Q : DrawArea.t -> World -> Prop) :
  cell a v w -> Q v w -> runs (load a) w Q.
Proof.
  intros Hc HQ. exists v, w. split; [|exact HQ]. unfold load. now rewrite Hc.
Qed.

Lemma runs_new (v : DrawArea.t) (w : World) (Q : nat -> World -> Prop) :
  Q (List.length (areas w)) (mkWorld (areas w ++ [v]) (ops w)) -> runs (new v) w Q.
Proof. intros HQ. eexists _, _. split; [reflexivity | exact HQ]. Qed.

Lemma runs_emit (o : CanvasOp) (w : World) (Q : unit -> World -> Prop) :
  Q tt (mkWorld (areas w) (ops w ++ [o])) -> runs (emit o) w Q.
Proof. intros HQ. eexists _, _. split; [reflexivity | exact HQ]. Qed.

Lemma runs_store (a : nat) (u v : DrawArea.t) (w : World)
  (Q : unit -> World -> Prop) :
  cell a u w -> Q tt (mkWorld (set_nth a v (areas w)) (ops w)) ->
  runs (store a v) w Q.
Proof.
  intros Hc HQ. eexists _, _. split; [|exact HQ]. unfold store.
  assert (Hlt : (a < List.length (areas w))%nat)
    by (apply nth_error_Some; unfold cell in Hc; congruence).
  apply Nat.ltb_lt in Hlt. now rewrite Hlt.
Qed.

Lemma cell_emit (a : nat) (v : DrawArea.t) (w : World) (o : list CanvasOp) :
  cell a v w -> cell a v (mkWorld (areas w) o).
Proof. exact (fun H => H). Qed.

Lemma cell_grow (a : nat) (v x : DrawArea.t) (l : list DrawArea.t)
  (o : list CanvasOp) :
  cell a v (mkWorld l o) -> cell a v (mkWorld (l ++ [x]) o).
Proof.
  unfold cell. simpl. intros Hc. rewrite nth_error_app1; [exact Hc|].
  apply nth_error_Some. congruence.
Qed.

Lemma cell_new (x : DrawArea.t) (l : list DrawArea.t) (o : list CanvasOp) :
  cell (List.length l) x (mkWorld (l ++ [x]) o).
Proof.
  unfold cell. simpl. rewrite nth_error_app2, Nat.sub_diag; [reflexivity | lia].
Qed.

Lemma nth_error_set_nth {T : Type} (l : list T) (n : nat) (u v : T) :
  nth_error l n = Some u -> nth_error (set_nth n v l) n = Some v.
Proof.
  revert n. induction l as [|x l IH]; intros [|n]; simpl; try discriminate; auto.
Qed.

Lemma cell_store (a : nat) (u v : DrawArea.t) (w : World) (o : list CanvasOp) :
  cell a u w -> cell a v (mkWorld (set_nth a v (areas w)) o).
Proof. unfold cell. simpl. apply nth_error_set_nth. Qed.

Create HintDb draw.
#[local] Hint Resolve cell_emit cell_grow cell_new cell_store : draw.

(** A loop whose body keeps an invariant. *)
Lemma runs_for_each {T : Type} (I : World -> Prop) (l : list T)
  (body : T -> M unit) (w : World) (Q : unit -> World -> Prop) :
  I w ->
  (forall t w0, I w0 -> runs (body t) w0 (fun _ w1 => I w1)) ->
  (forall w', I w' -> Q tt w') ->
  runs (for_each l body) w Q.
Proof.
  intros HI Hbody HQ. revert w HI.
  induction l as [|t l IH]; intros w HI; simpl.
  - apply runs_ret. auto.
  - apply runs_bind. eapply runs_weaken; [apply Hbody; exact HI|].
    intros u w1 HI1. simpl. auto.
Qed.

(** Symbolic execution of a computation, one primitive at a time. *)
Ltac run_step :=
  cbn [areas ops];
  match goal with
  | |- runs (bind _ _) _ _ => apply runs_bind
  | |- runs (ret _) _ _ => apply runs_ret
  | |- runs (emit _) _ _ => apply runs_emit
  | |- runs (new _) _ _ => apply runs_new
  | |- runs (load _) _ _ => eapply runs_load; [solve [eauto 10 with draw]|]
  | |- runs (store _ _) _ _ => eapply runs_store; [solve [eauto 10 with draw]|]
  | |- runs (crop_ptr _ _ _ _ _) _ _ => unfold crop_ptr
  | |- runs (padX_ptr _ _) _ _ => unfold padX_ptr
  | |- runs (padY_ptr _ _) _ _ => unfold padY_ptr
  end.

(** After the title has been dealt with, [Draw] only reads the caller's
    area: every later area is a fresh cell. *)
Lemma Draw_layout_keeps `{External} (p : Plot) (da : nat) (v : DrawArea.t)
  (w : World) :
  cell da v w ->
  runs
    (let x := sanitizeRange (X (fields p)) in
     let y := sanitizeRange (Y (fields p)) in
     let p := mkPlot (set_Y (set_X (fields p) x) y) (plotters p) in
     let ywidth := verticalAxis_size y in
     c1 <- crop_ptr da ywidth Float64.zero Float64.zero Float64.zero ;;
     a1 <- padX_ptr p c1 ;;
     v1 <- load a1 ;;
     emit (OpAxisDraw true x v1) ;;
     let xheight := horizontalAxis_size x in
     c2 <- crop_ptr da Float64.zero xheight Float64.zero Float64.zero ;;
     a2 <- padY_ptr p c2 ;;
     v2 <- load a2 ;;
     emit (OpAxisDraw false y v2) ;;
     c3 <- crop_ptr da ywidth xheight Float64.zero Float64.zero ;;
     a3 <- padX_ptr p c3 ;;
     da <- padY_ptr p a3 ;;
     for_each (plotters p)
       (fun data => v <- load da ;; emit (OpPlot (PlotterId data) v)) ;;
     v <- load da ;;
     emit (OpLegendDraw v) ;;
     ret p)
    w
    (fun p' w' =>
       cell da v w' /\
       plotters p' = plotters p /\
       X (fields p') = sanitizeRange (X (fields p)) /\
       Y (fields p') = sanitizeRange (Y (fields p))).
Proof.
  intros Hc. cbv zeta.
  repeat run_step.
  match goal with
  | |- runs (for_each _ (fun data => v <- load ?a ;; _)) _ _ =>
      apply (runs_for_each
               (fun w1 => cell da v w1 /\ exists u, cell a u w1))
  end.
  - split; [eauto 10 with draw|]. eexists. eauto 10 with draw.
  - intros t w0 [H1 [u H2]]. repeat run_step. split; eauto with draw.
  - intros w' [H1 [u H2]]. repeat run_step. repeat split; eauto with draw.
Qed.

(** [Draw] does not panic on a valid pointer; when it returns, the caller's
    cell holds the area with the title's height taken off (or the area as
    it was, without a title), and the plot has its ranges sanitized. *)
Lemma Draw_runs `{External} (p : Plot) (da : nat) (v : DrawArea.t) (w : World) :
  cell da v w ->
  runs (Draw p da) w
    (fun p' w' =>
       cell da (if String.eqb (Title.Text (Title (fields p))) EmptyString
                then v else shrink_Size_Y v (title_height p)) w' /\
       plotters p' = plotters p /\
       X (fields p') = sanitizeRange (X (fields p)) /\
       Y (fields p') = sanitizeRange (Y (fields p))).
Proof.
  intros Hc. unfold Draw.
  apply runs_bind.
  assert (Hbg : forall Q : unit -> World -> Prop,
             (forall w1, cell da v w1 -> Q tt w1) ->
             runs (match BackgroundColor (fields p) with
                   | Some c =>
                       emit (OpSetColor c) ;;
                       v <- load da ;;
                       emit (OpFill (DrawArea.Rect v))
                   | None => ret tt
                   end) w Q).
  { intros Q HQ. destruct (BackgroundColor (fields p)); repeat run_step;
      apply HQ; eauto with draw. }
  apply Hbg. clear Hbg. intros w1 Hc1.
  apply runs_bind.
  destruct (String.eqb (Title.Text (Title (fields p))) EmptyString).
  - run_step. now apply Draw_layout_keeps.
  - do 7 run_step. apply Draw_layout_keeps.
    unfold title_height. eauto with draw.
Qed.

(** C10. [Draw] writes through the pointer it is given.  For every plot
    and every valid pointer, [Draw] returns, and in the store it leaves the
    caller's DrawArea is: with a non-empty title, the area it was with
    [Size.Y] decreased by the title's rendered height minus the descent of
    the title font, [Min.X], [Min.Y] and [Size.X] (and the canvas)
    unchanged; with an empty title, the area exactly as it was. *)
Theorem Draw_mutates_caller_area `{External} (p : Plot) (da : nat)
  (v : DrawArea.t) (w : World) :
  cell da v w ->
  exists p' w' v',
    Draw p da w = Some (p', w') /\
    cell da v' w' /\
    (Title.Text (Title (fields p)) = EmptyString -> v' = v) /\
    (Title.Text (Title (fields p)) <> EmptyString ->
     Point.Y (DrawArea.Size v')
     = (Point.Y (DrawArea.Size v)
        - (TextStyle_Height (Title.Style (Title (fields p)))
             (Title.Text (Title (fields p)))
           - Font_Descent (TextFont (Title.Style (Title (fields p))))))%f64 /\
     Point.X (DrawArea.Size v') = Point.X (DrawArea.Size v) /\
     Point.X (DrawArea.Min v') = Point.X (DrawArea.Min v) /\
     Point.Y (DrawArea.Min v') = Point.Y (DrawArea.Min v) /\
     DrawArea.Canvas v' = DrawArea.Canvas v).
Proof.
  intros Hc. destruct (Draw_runs p da v w Hc) as (p' & w' & HD & Hcell & _).
  exists p', w'. eexists. split; [exact HD|]. split; [exact Hcell|].
  destruct (String.eqb_spec (Title.Text (Title (fields p))) EmptyString) as [E | E].
  - split; [reflexivity | intros F; contradiction].
  - split; [intros F; contradiction | intros _]. repeat split.
Qed.

(** Drawing a plot titled "T" (ten units high, descent two) on an area 300
    wide and 200 high leaves the caller's area 192 high. *)
Lemma Draw_mutates_caller_area_witness :
  exists p' w' v',
    @Draw plain_external (titled_plot "T") 0 (mkWorld [region 0 0 300 200] [])
    = Some (p', w') /\
    cell 0 v' w' /\
    Point.Y (DrawArea.Size v') = ofZ 192 /\
    Point.X (DrawArea.Size v') = ofZ 300.
Proof.
  destruct (@Draw_mutates_caller_area plain_external (titled_plot "T") 0
              (region 0 0 300 200) (mkWorld [region 0 0 300 200] []) eq_refl)
    as (p' & w' & v' & HD & Hcell & _ & Hne).
  exists p', w', v'. split; [exact HD|]. split; [exact Hcell|].
  destruct Hne as (HY & HX & _); [discriminate|].
  rewrite HY, HX. split; [|reflexivity].
  apply eqb_eq. vm_compute. reflexivity.
Defined.

(** ** Save *)

Lemma backend_of_expected (ext : string) :
  match backend_of ext with
  | Some (c, fmt, fallible) =>
      expected_backend ext = Some (c, fmt) /\
      (fallible = true <-> c = ImgCanvas)
  | None => expected_backend ext = None
  end.
Proof.
  unfold backend_of, expected_backend.
  destruct (String.eqb ext ".eps"); [split; [reflexivity|split; discriminate]|].
  destruct (String.eqb ext ".png"); [split; [reflexivity|split; reflexivity]|].
  destruct (String.eqb ext ".jpg"); [split; [reflexivity|split; reflexivity]|].
  destruct (String.eqb ext ".jpeg"); [split; [reflexivity|split; reflexivity]|].
  simpl.
  destruct (String.eqb ext ".svg"); [split; [reflexivity|split; discriminate]|].
  destruct (String.eqb ext ".pdf"); [split; [reflexivity|split; discriminate]|].
  reflexivity.
Qed.

Lemma expected_backend_supported (ext : string) :
  In ext supported_extensions <-> expected_backend ext <> None.
Proof.
  unfold expected_backend, supported_extensions. simpl.
  repeat match goal with
         | |- context [String.eqb ext ?s] =>
             destruct (String.eqb_spec ext s) as [-> | ?]
         end;
    simpl; intuition congruence.
Qed.



(** The extension is compared without regard to case, and a directory
    name with a dot carries no extension. *)
Example Save_upper_case_png :
  expected_backend (strings_ToLower (filepath_Ext "out/fig.1/plot.PNG"))
  = Some (ImgCanvas, FmtPNG) /\
  expected_backend (strings_ToLower (filepath_Ext "plot.Jpeg"))
  = Some (ImgCanvas, FmtJPEG) /\
  expected_backend (strings_ToLower (filepath_Ext "plot.bmp")) = None /\
  filepath_Ext "out/fig.1/plot" = EmptyString.
Proof. repeat split. Qed.

Example Save_bmp_unsupported :
  @Save plain_external empty_plot (ofZ 4) (ofZ 4) "plot.bmp"
  = Some (mkSaveResult empty_plot
            (Some (Errorf "Unsupported file extension: .bmp")) []).
Proof. reflexivity. Qed.

(* ================================================================== *)
(** * Part II, continued: further properties of the code *)
(* ================================================================== *)

(** ** Add: composition, frame, order of the arguments *)

Lemma Add_range_frame (f : PlotFields) (d : Plotter) :
  Title (Add_range f d) = Title f /\
  BackgroundColor (Add_range f d) = BackgroundColor f /\
  Axis.Padding (X (Add_range f d)) = Axis.Padding (X f) /\
  Axis.Padding (Y (Add_range f d)) = Axis.Padding (Y f).
Proof.
  unfold Add_range.
  destruct (DataRange d) as [[[[xmin xmax] ymin] ymax]|]; repeat split.
Qed.

Lemma Add_loop_frame (ps : list Plotter) (f : PlotFields) :
  Title (fold_left Add_range ps f) = Title f /\
  BackgroundColor (fold_left Add_range ps f) = BackgroundColor f /\
  Axis.Padding (X (fold_left Add_range ps f)) = Axis.Padding (X f) /\
  Axis.Padding (Y (fold_left Add_range ps f)) = Axis.Padding (Y f).
Proof.
  revert f. induction ps as [|d ps IH]; intros f; simpl; [repeat split|].
  destruct (IH (Add_range f d)) as (-> & -> & -> & ->).
  apply Add_range_frame.
Qed.

(** The exported fields are determined by the four bounds and the parts
    that [Add] leaves alone. *)
Lemma PlotFields_ext (f g : PlotFields) :
  Title f = Title g -> BackgroundColor f = BackgroundColor g ->
  Axis.Padding (X f) = Axis.Padding (X g) ->
  Axis.Padding (Y f) = Axis.Padding (Y g) ->
  (forall c, bound c f = bound c g) -> f = g.
Proof.
  destruct f as [t b [xm xM xp] [ym yM yp]], g as [t' b' [xm' xM' xp'] [ym' yM' yp']].
  simpl. intros -> -> -> -> H.
  pose proof (H XMin) as H1. pose proof (H XMax) as H2.
  pose proof (H YMin) as H3. pose proof (H YMax) as H4.
  simpl in *. congruence.
Qed.

Lemma reports_no_DataRanger (c : Bound) (ps : list Plotter) :
  (forall d, In d ps -> DataRange d = None) -> reports c ps = [].
Proof.
  unfold reports. induction ps as [|d ps IH]; intros Hnone; [reflexivity|].
  simpl. rewrite (Hnone d (or_introl eq_refl)). simpl.
  apply IH. intros d' Hd'. apply Hnone. now right.
Qed.

(** X1. Calls of [Add] compose: adding [ps] and then [qs] leaves the plot
    that adding [ps ++ qs] in one call leaves, and a call without argument
    changes nothing. *)
Theorem Add_app (p : Plot) (ps qs : list Plotter) :
  Add (Add p ps) qs = Add p (ps ++ qs) /\ Add p [] = p.
Proof.
  split.
  - unfold Add. simpl. now rewrite fold_left_app, app_assoc.
  - destruct p. unfold Add. simpl. now rewrite app_nil_r.
Qed.

(** X2. [Add] writes nothing but the four bounds and the list of plotters:
    the title, the background colour and the padding of both axes are kept;
    and when none of the plotters given is a DataRanger the exported fields
    are exactly those before the call. *)
Theorem Add_frame (p : Plot) (ps : list Plotter) :
  Title (fields (Add p ps)) = Title (fields p) /\
  BackgroundColor (fields (Add p ps)) = BackgroundColor (fields p) /\
  Axis.Padding (X (fields (Add p ps))) = Axis.Padding (X (fields p)) /\
  Axis.Padding (Y (fields (Add p ps))) = Axis.Padding (Y (fields p)) /\
  ((forall d, In d ps -> DataRange d = None) -> fields (Add p ps) = fields p).
Proof.
  destruct (Add_loop_frame ps (fields p)) as (H1 & H2 & H3 & H4).
  unfold Add. simpl. repeat split; auto.
  intros Hnone. apply PlotFields_ext; auto.
  intros c. rewrite bound_Add_loop, reports_no_DataRanger; auto.
Qed.

(** [math.Min] and [math.Max] as operations: right-commutative and
    absorbing a value already folded in. *)
Ltac cmp_cases :=
  repeat match goal with
         | |- context [Qcltb ?a ?b] => destruct (Qcltb a b) eqn:?
         end;
  repeat match goal with
         | H : Qcltb _ _ = true |- _ => apply Qcltb_lt in H
         | H : Qcltb ?a ?b = false |- _ =>
             assert (~ a < b) by (intros F; apply Qcltb_lt in F; congruence);
             clear H
         end.

Lemma widen_right_comm (c : Bound) (b u v : float64) :
  widen c (widen c b u) v = widen c (widen c b v) u.
Proof.
  destruct c; simpl; unfold math_Min, math_Max, fgt;
    destruct b, u, v; simpl; try reflexivity;
    cmp_cases; simpl; cmp_cases; try reflexivity;
    try (f_equal; qc_lra); exfalso; qc_lra.
Qed.

Lemma widen_absorbs (c : Bound) (b v : float64) :
  widen c (widen c b v) v = widen c b v.
Proof.
  destruct c; simpl; unfold math_Min, math_Max, fgt;
    destruct b, v; simpl; try reflexivity;
    cmp_cases; simpl; cmp_cases; try reflexivity;
    try (f_equal; qc_lra); exfalso; qc_lra.
Qed.

Section Folds.
Variables (A B : Type) (f : A -> B -> A).
Hypothesis f_right_comm : forall a x y, f (f a x) y = f (f a y) x.
Hypothesis f_absorbs : forall a x, f (f a x) x = f a x.

Lemma fold_left_permutation (l l' : list B) (a : A) :
  Permutation l l' -> fold_left f l a = fold_left f l' a.
Proof.
  intros HP. revert a.
  induction HP as [|x l l' _ IH|x y l|l l' l'' _ IH1 _ IH2]; intros a; simpl.
  - reflexivity.
  - apply IH.
  - now rewrite f_right_comm.
  - now rewrite IH1.
Qed.

Lemma fold_left_keeps_absorbed (l : list B) (a : A) (x : B) :
  f a x = a -> f (fold_left f l a) x = fold_left f l a.
Proof.
  revert a. induction l as [|y l IH]; intros a Ha; simpl; [exact Ha|].
  apply IH. now rewrite f_right_comm, Ha.
Qed.

Lemma fold_left_absorbs_all (l : list B) (a : A) (x : B) :
  In x l -> f (fold_left f l a) x = fold_left f l a.
Proof.
  revert a. induction l as [|y l IH]; intros a Hx; [destruct Hx|].
  destruct Hx as [-> | Hx]; simpl.
  - apply fold_left_keeps_absorbed, f_absorbs.
  - now apply IH.
Qed.

Lemma fold_left_fixed (l : list B) (a : A) :
  (forall x, In x l -> f a x = a) -> fold_left f l a = a.
Proof.
  revert a. induction l as [|y l IH]; intros a Ha; simpl; [reflexivity|].
  rewrite (Ha y (or_introl eq_refl)). apply IH.
  intros x Hx. apply Ha. now right.
Qed.
End Folds.

Lemma reports_app (c : Bound) (ps qs : list Plotter) :
  reports c (ps ++ qs) = reports c ps ++ reports c qs.
Proof. unfold reports. apply flat_map_app. Qed.

Lemma reports_permutation (c : Bound) (ps qs : list Plotter) :
  Permutation ps qs ->
  Permutation (reports c ps) (reports c qs).
Proof.
  intros HP. induction HP as [|d l l' _ IH|d e l|l l' l'' _ IH1 _ IH2].
  - constructor.
  - unfold reports in *. simpl. now apply Permutation_app_head.
  - unfold reports. simpl. rewrite !app_assoc.
    apply Permutation_app_tail, Permutation_app_comm.
  - now transitivity (reports c l').
Qed.

(** X3. The axis ranges do not depend on the order in which plotters are
    given to [Add]: two argument lists that are permutations of each other
    leave the same exported fields (the same four bounds); only the list of
    plotters, hence the drawing order, differs.  This holds for every
    reported value, [NaN] and infinities included. *)
Theorem Add_order_irrelevant (p : Plot) (ps qs : list Plotter) :
  Permutation ps qs ->
  fields (Add p ps) = fields (Add p qs) /\
  Permutation (plotters (Add p ps)) (plotters (Add p qs)).
Proof.
  intros HP. split.
  - destruct (Add_loop_frame ps (fields p)) as (T1 & B1 & P1 & Q1).
    destruct (Add_loop_frame qs (fields p)) as (T2 & B2 & P2 & Q2).
    apply PlotFields_ext; unfold Add; simpl; try congruence.
    intros c. rewrite !bound_Add_loop.
    apply fold_left_permutation; [apply widen_right_comm|].
    now apply reports_permutation.
  - unfold Add. simpl. now apply Permutation_app_head.
Qed.

(** The order of two DataRangers does not matter for the ranges. *)
Lemma Add_order_irrelevant_witness :
  let a := ranger 0 (ofZ 1) (ofZ 5) (ofZ 2) (ofZ 3) in
  let b := ranger 1 NaN (ofZ 9) (ofZ 0) PInf in
  fields (Add empty_plot [a; b]) = fields (Add empty_plot [b; a]).
Proof.
  intros a b.
  apply (Add_order_irrelevant empty_plot [a; b] [b; a]).
  apply perm_swap.
Defined.

Lemma reports_incl (c : Bound) (ps qs : list Plotter) :
  (forall d, In d qs -> In d ps) ->
  forall v, In v (reports c qs) -> In v (reports c ps).
Proof.
  unfold reports. intros Hincl v Hv.
  apply in_flat_map in Hv as (d & Hd & Hv).
  apply in_flat_map. exists d. auto.
Qed.

(** X4. Adding again plotters that were already given changes no range:
    after [Add(ps)], a call of [Add] whose arguments are all among [ps]
    leaves the exported fields as they are and only appends to the list of
    plotters.  This holds whatever values are reported. *)
Theorem Add_again_keeps_ranges (p : Plot) (ps qs : list Plotter) :
  (forall d, In d qs -> In d ps) ->
  fields (Add (Add p ps) qs) = fields (Add p ps) /\
  plotters (Add (Add p ps) qs) = (plotters p ++ ps) ++ qs.
Proof.
  intros Hincl. split; [|reflexivity].
  destruct (Add_loop_frame qs (fields (Add p ps))) as (T & B & P & Q).
  apply PlotFields_ext; try assumption.
  intros c. rewrite bound_Add, bound_Add.
  apply fold_left_fixed. intros v Hv.
  apply fold_left_absorbs_all;
    [apply widen_right_comm | apply widen_absorbs |].
  now apply (reports_incl c ps qs).
Qed.

(** Adding the same plotters twice. *)
Lemma Add_again_keeps_ranges_witness :
  let a := ranger 0 (ofZ 1) (ofZ 5) (ofZ 2) (ofZ 3) in
  let b := ranger 1 (ofZ (-4)) (ofZ 2) NaN (ofZ 7) in
  fields (Add (Add empty_plot [a; b]) [b; a]) = fields (Add empty_plot [a; b]).
Proof.
  intros a b.
  apply (Add_again_keeps_ranges empty_plot [a; b] [b; a]).
  intros d [<- | [<- | []]]; simpl; auto.
Defined.

(** ** GlyphBoxes after Add *)

(** X5. The glyph boxes of a plot are computed against the plot as it is
    when they are asked for: after [Add(ps)] they are the boxes of the
    plotters registered before, then those of [ps], all evaluated on the
    widened axes.  When no plotter of [ps] is a DataRanger the axes are as
    before, and the boxes are the former ones followed by those of [ps]. *)
Theorem GlyphBoxes_Add (p : Plot) (ps : list Plotter) :
  GlyphBoxes (Add p ps)
  = List.concat (map (own_boxes (fields (Add p ps))) (plotters p))
    ++ List.concat (map (own_boxes (fields (Add p ps))) ps) /\
  ((forall d, In d ps -> DataRange d = None) ->
   GlyphBoxes (Add p ps)
   = GlyphBoxes p ++ List.concat (map (own_boxes (fields p)) ps)).
Proof.
  assert (E : forall q, GlyphBoxes q
                        = List.concat (map (own_boxes (fields q)) (plotters q))).
  { intros q. unfold GlyphBoxes. now rewrite GlyphBoxes_loop. }
  assert (E1 : GlyphBoxes (Add p ps)
               = List.concat (map (own_boxes (fields (Add p ps))) (plotters p))
                 ++ List.concat (map (own_boxes (fields (Add p ps))) ps)).
  { rewrite E. unfold Add at 2. simpl plotters.
    now rewrite map_app, concat_app. }
  split; [exact E1|].
  intros Hnone. rewrite E1, (E p).
  assert (Hf : fields (Add p ps) = fields p).
  { destruct (Add_loop_frame ps (fields p)) as (T & B & P & Q).
    apply PlotFields_ext; try assumption.
    intros c. unfold Add. simpl.
    rewrite bound_Add_loop, reports_no_DataRanger; auto. }
  now rewrite Hf.
Qed.

(** ** The other three selections *)

Section ScanFirst.
Variables (A : Type) (key : A -> float64) (ok : A -> bool).
Variable better : float64 -> float64 -> bool.
Hypothesis better_irrefl : forall x, better x x = false.
Hypothesis better_trans :
  forall x y z, better x y = true -> better y z = true -> better x z = true.

Lemma scan_snoc (bs : list A) (b : A) (m0 : float64) (l0 : A) :
  scan A key ok better (bs ++ [b]) m0 l0
  = scan_step A key ok better (scan A key ok better bs m0 l0) b.
Proof. unfold scan. now rewrite fold_left_app. Qed.

(** The box selected is the first of the list that has its edge: every
    qualifying box before it has another edge. *)
Lemma scan_first (boxes : list A) (m0 : float64) (l0 : A) :
  (exists b, In b boxes /\ better (key b) m0 && ok b = true) ->
  exists pre post,
    boxes = pre ++ snd (scan A key ok better boxes m0 l0) :: post /\
    forall b, In b pre -> ok b = true ->
              key b <> key (snd (scan A key ok better boxes m0 l0)).
Proof.
  induction boxes as [|b bs IH] using rev_ind; intros (b0 & Hb0 & Hq0).
  - destruct Hb0.
  - rewrite scan_snoc.
    pose proof (scan_spec A key ok better better_irrefl better_trans bs m0 l0)
      as Hspec.
    cbv zeta in Hspec. unfold scan_step.
    destruct (better (key b) (fst (scan A key ok better bs m0 l0)) && ok b)
      eqn:Hb.
    + exists bs, []. split; [reflexivity|]. simpl.
      apply andb_true_iff in Hb as [Hb1 Hb2].
      intros b' Hb' Hok F.
      destruct Hspec as [[Hnone Hst] | (_ & _ & _ & Hmin)].
      * rewrite Hst in Hb1. simpl in Hb1.
        specialize (Hnone b' Hb'). rewrite Hok, andb_true_r, F in Hnone.
        congruence.
      * specialize (Hmin b' Hb' Hok). rewrite F in Hmin. congruence.
    + assert (Hsome : exists b1, In b1 bs /\ better (key b1) m0 && ok b1 = true).
      { destruct Hspec as [[Hnone Hst] | (Hin & _ & Hq & _)].
        - rewrite Hst in Hb. simpl in Hb.
          apply in_app_or in Hb0 as [Hb0 | [<- | []]].
          + rewrite (Hnone b0 Hb0) in Hq0. discriminate.
          + congruence.
        - eauto. }
      destruct (IH Hsome) as (pre & post & Hdec & Hpre).
      exists pre, (post ++ [b]). split; [|exact Hpre].
      rewrite Hdec at 1. now rewrite <- app_assoc.
Qed.
End ScanFirst.

(** X6. In the horizontal padding pass the right-most box is selected
    among the glyph boxes of the plotters followed by those of the x axis.
    The candidates are the boxes with anchor [X <= 1] whose absolute right
    edge is strictly beyond the region's [Max().X]: without candidate the
    sentinel [GlyphBox{X: 1}] is returned; otherwise a candidate is returned
    and no box with anchor [X <= 1] has a strictly greater right edge. *)
Theorem padX_right_selection `{External} (p : Plot) (da : DrawArea.t) :
  let boxes := GlyphBoxes p ++ horizontalAxis_GlyphBoxes (X (fields p)) in
  let overhangs b :=
    (right_edge da b >? Point.X (DrawArea.Max da))%f64
    && (GlyphBox.X b <=? Float64.one)%f64 in
  let r := padX_right p da in
  ((forall b, In b boxes -> overhangs b = false) -> r = GlyphBox.atX1) /\
  ((exists b, In b boxes /\ overhangs b = true) ->
   In r boxes /\ overhangs r = true /\
   forall b, In b boxes -> (GlyphBox.X b <=? Float64.one)%f64 = true ->
             (right_edge da b >? right_edge da r)%f64 = false).
Proof.
  intros boxes overhangs r. split.
  - intros Hnone. now apply rightMost_sentinel.
  - intros Hsome. unfold r, padX_right. rewrite rightMost_scan.
    apply (scan_some _ (right_edge da)
             (fun b => (GlyphBox.X b <=? Float64.one)%f64) fgt
             fgt_irrefl fgt_trans boxes
             (Point.X (DrawArea.Max da)) GlyphBox.atX1 Hsome).
Qed.

(** With a plotter label that hangs 3 over the right edge and an axis tick
    label that hangs 5 over it, the right-most box is the tick label. *)
Lemma padX_right_selection_witness :
  let p := Add empty_plot [boxer 0 [box 1 0 (-3) 0 6 0]] in
  @padX_right ticked_external p (region 0 0 200 100) = box 1 0 (-5) 0 10 0.
Proof.
  intros p.
  destruct (@padX_right_selection ticked_external p (region 0 0 200 100))
    as (_ & Hsel).
  destruct Hsel as (Hin & Hov & Hmin).
  - exists (box 1 0 (-3) 0 6 0). split; [left; reflexivity | vm_compute; reflexivity].
  - destruct Hin as [E | [E | [E | []]]].
    + specialize (Hmin (box 1 0 (-5) 0 10 0)
                    (or_intror (or_intror (or_introl eq_refl))) eq_refl).
      rewrite <- E in Hmin. vm_compute in Hmin. discriminate Hmin.
    + rewrite <- E in Hov. vm_compute in Hov. discriminate Hov.
    + symmetry. exact E.
Defined.

(** X7. In the vertical padding pass the bottom-most box is selected among
    the glyph boxes of the plotters only, the top-most among those followed
    by the boxes of the y axis.  Bottom: candidates have anchor [Y >= 0] and
    a bottom edge strictly below the region's [Min.Y]; top: anchor [Y <= 1]
    and a top edge strictly above [Max().Y].  Without candidate the sentinel
    ([GlyphBox{}], [GlyphBox{Y: 1}]) is returned, otherwise a candidate than
    which no qualifying box reaches strictly further. *)
Theorem padY_selection `{External} (p : Plot) (da : DrawArea.t) :
  let below b :=
    (bottom_edge da b <? Point.Y (DrawArea.Min da))%f64
    && (GlyphBox.Y b >=? Float64.zero)%f64 in
  let above b :=
    (top_edge da b >? Point.Y (DrawArea.Max da))%f64
    && (GlyphBox.Y b <=? Float64.one)%f64 in
  let tboxes := GlyphBoxes p ++ verticalAxis_GlyphBoxes (Y (fields p)) in
  let b0 := padY_bottom p da in
  let t0 := padY_top p da in
  ((forall b, In b (GlyphBoxes p) -> below b = false) -> b0 = GlyphBox.zero) /\
  ((exists b, In b (GlyphBoxes p) /\ below b = true) ->
   In b0 (GlyphBoxes p) /\ below b0 = true /\
   forall b, In b (GlyphBoxes p) -> (GlyphBox.Y b >=? Float64.zero)%f64 = true ->
             (bottom_edge da b <? bottom_edge da b0)%f64 = false) /\
  ((forall b, In b tboxes -> above b = false) -> t0 = GlyphBox.atY1) /\
  ((exists b, In b tboxes /\ above b = true) ->
   In t0 tboxes /\ above t0 = true /\
   forall b, In b tboxes -> (GlyphBox.Y b <=? Float64.one)%f64 = true ->
             (top_edge da b >? top_edge da t0)%f64 = false).
Proof.
  intros below above tboxes b0 t0.
  split; [intros Hnone; now apply bottomMost_sentinel|].
  split.
  { intros Hsome. unfold b0, padY_bottom. rewrite bottomMost_scan.
    apply (scan_some _ (bottom_edge da)
             (fun b => (GlyphBox.Y b >=? Float64.zero)%f64) flt
             flt_irrefl flt_trans (GlyphBoxes p)
             (Point.Y (DrawArea.Min da)) GlyphBox.zero Hsome). }
  split; [intros Hnone; now apply topMost_sentinel|].
  intros Hsome. unfold t0, padY_top. rewrite topMost_scan.
  apply (scan_some _ (top_edge da)
           (fun b => (GlyphBox.Y b <=? Float64.one)%f64) fgt
           fgt_irrefl fgt_trans tboxes
           (Point.Y (DrawArea.Max da)) GlyphBox.atY1 Hsome).
Qed.

(** A plotter label hanging 4 below the region and 6 above it is both the
    bottom-most and the top-most box. *)
Lemma padY_selection_witness :
  let b := box (1 # 2) (1 # 2) 0 (-54) 0 110 in
  let p := Add empty_plot [boxer 0 [b]] in
  padY_bottom p (region 0 0 200 100) = b /\
  @padY_top plain_external p (region 0 0 200 100) = b.
Proof.
  intros b p.
  destruct (@padY_selection plain_external p (region 0 0 200 100))
    as (_ & Hbot & _ & Htop).
  destruct Hbot as ([E | []] & _).
  { exists b. split; [left; reflexivity | vm_compute; reflexivity]. }
  destruct Htop as ([E' | []] & _).
  { exists b. split; [left; reflexivity | vm_compute; reflexivity]. }
  split; symmetry; assumption.
Defined.

(** X8. Ties go to the earlier box.  Each of the four selections compares
    strictly, so when it selects a box of the list, the box is the first
    one with that edge: every box before it that passes the anchor test has
    a different edge. *)
Theorem selection_first_of_ties (da : DrawArea.t) (boxes : list GlyphBox.t) :
  ((exists b, In b boxes /\
      (left_edge da b <? Point.X (DrawArea.Min da))%f64
      && (GlyphBox.X b >=? Float64.zero)%f64 = true) ->
   exists pre post,
     boxes = pre ++ leftMost da boxes :: post /\
     forall b, In b pre -> (GlyphBox.X b >=? Float64.zero)%f64 = true ->
               left_edge da b <> left_edge da (leftMost da boxes)) /\
  ((exists b, In b boxes /\
      (right_edge da b >? Point.X (DrawArea.Max da))%f64
      && (GlyphBox.X b <=? Float64.one)%f64 = true) ->
   exists pre post,
     boxes = pre ++ rightMost da boxes :: post /\
     forall b, In b pre -> (GlyphBox.X b <=? Float64.one)%f64 = true ->
               right_edge da b <> right_edge da (rightMost da boxes)) /\
  ((exists b, In b boxes /\
      (bottom_edge da b <? Point.Y (DrawArea.Min da))%f64
      && (GlyphBox.Y b >=? Float64.zero)%f64 = true) ->
   exists pre post,
     boxes = pre ++ bottomMost da boxes :: post /\
     forall b, In b pre -> (GlyphBox.Y b >=? Float64.zero)%f64 = true ->
               bottom_edge da b <> bottom_edge da (bottomMost da boxes)) /\
  ((exists b, In b boxes /\
      (top_edge da b >? Point.Y (DrawArea.Max da))%f64
      && (GlyphBox.Y b <=? Float64.one)%f64 = true) ->
   exists pre post,
     boxes = pre ++ topMost da boxes :: post /\
     forall b, In b pre -> (GlyphBox.Y b <=? Float64.one)%f64 = true ->
               top_edge da b <> top_edge da (topMost da boxes)).
Proof.
  repeat split; intros Hsome.
  - rewrite leftMost_scan.
    apply (scan_first _ (left_edge da) _ flt flt_irrefl flt_trans _ _ _ Hsome).
  - rewrite rightMost_scan.
    apply (scan_first _ (right_edge da) _ fgt fgt_irrefl fgt_trans _ _ _ Hsome).
  - rewrite bottomMost_scan.
    apply (scan_first _ (bottom_edge da) _ flt flt_irrefl flt_trans _ _ _ Hsome).
  - rewrite topMost_scan.
    apply (scan_first _ (top_edge da) _ fgt fgt_irrefl fgt_trans _ _ _ Hsome).
Qed.

(** Two labels with the same left edge, told apart by their height: the
    first of the list is the left-most box. *)
Lemma selection_first_of_ties_witness :
  let b1 := box 0 0 (-8) 0 16 1 in
  let b2 := box 0 0 (-8) 0 16 2 in
  leftMost (region 0 0 200 100) [b1; b2] = b1.
Proof.
  intros b1 b2.
  destruct (selection_first_of_ties (region 0 0 200 100) [b1; b2]) as (Hl & _).
  destruct Hl as (pre & post & Hdec & Hpre).
  { exists b1. split; [left; reflexivity | vm_compute; reflexivity]. }
  pose proof (f_equal (hd b1) Hdec) as Hh.
  pose proof (f_equal (@tl GlyphBox.t) Hdec) as Ht.
  destruct pre as [|x pre]; cbn [hd tl app] in Hh, Ht.
  - symmetry. exact Hh.
  - exfalso. apply (Hpre x (or_introl eq_refl)); rewrite <- Hh; [reflexivity|].
    pose proof (f_equal (hd b1) Ht) as Hh2.
    pose proof (f_equal (@List.length GlyphBox.t) Ht) as Hlen.
    destruct pre as [|y pre]; cbn [hd app] in Hh2.
    + rewrite <- Hh2. reflexivity.
    + cbn [List.length app] in Hlen. rewrite length_app in Hlen.
      cbn [List.length] in Hlen. lia.
Defined.

(** ** The two passes together *)

Lemma fold_left_ext_fun {S T : Type} (f g : S -> T -> S) (l : list T) (a : S) :
  (forall s t, f s t = g s t) -> fold_left f l a = fold_left g l a.
Proof.
  intros Hfg. revert a. induction l as [|t l IH]; intros a; simpl; [reflexivity|].
  now rewrite Hfg, IH.
Qed.

(** The horizontal selections read the horizontal extent of the region
    only, the vertical selections the vertical extent only. *)
Lemma horizontal_selection_ext (da1 da2 : DrawArea.t) (boxes : list GlyphBox.t) :
  Point.X (DrawArea.Min da1) = Point.X (DrawArea.Min da2) ->
  Point.X (DrawArea.Size da1) = Point.X (DrawArea.Size da2) ->
  leftMost da1 boxes = leftMost da2 boxes /\
  rightMost da1 boxes = rightMost da2 boxes.
Proof.
  intros Hm Hs. unfold leftMost, rightMost, DrawArea.Max, Rect.Max.
  fold (DrawArea.Min da1) (DrawArea.Min da2) (DrawArea.Size da1) (DrawArea.Size da2).
  cbn [Point.X]. rewrite Hm, Hs. split; f_equal; apply fold_left_ext_fun;
    intros st b; unfold leftMost_step, rightMost_step, DrawArea.X;
    now rewrite Hm, Hs.
Qed.

Lemma vertical_selection_ext (da1 da2 : DrawArea.t) (boxes : list GlyphBox.t) :
  Point.Y (DrawArea.Min da1) = Point.Y (DrawArea.Min da2) ->
  Point.Y (DrawArea.Size da1) = Point.Y (DrawArea.Size da2) ->
  bottomMost da1 boxes = bottomMost da2 boxes /\
  topMost da1 boxes = topMost da2 boxes.
Proof.
  intros Hm Hs. unfold bottomMost, topMost, DrawArea.Max, Rect.Max.
  fold (DrawArea.Min da1) (DrawArea.Min da2) (DrawArea.Size da1) (DrawArea.Size da2).
  cbn [Point.Y]. rewrite Hm, Hs. split; f_equal; apply fold_left_ext_fun;
    intros st b; unfold bottomMost_step, topMost_step, DrawArea.Y;
    now rewrite Hm, Hs.
Qed.

(** X9. The two padding passes are independent: [padX] reads and writes
    the horizontal extent only, [padY] the vertical extent only, so they
    commute, and the region [padY(p, padX(p, da))] that [Draw] hands to the
    plotters has the horizontal extent of [padX(p, da)] and the vertical
    extent of [padY(p, da)]. *)
Theorem pad_passes_commute `{External} (p : Plot) (da : DrawArea.t) :
  padY p (padX p da) = padX p (padY p da) /\
  padY p (padX p da)
  = DrawArea.mk (DrawArea.Canvas da)
      (Rect.mk
         (Point.mk (Point.X (DrawArea.Min (padX p da)))
                   (Point.Y (DrawArea.Min (padY p da))))
         (Point.mk (Point.X (DrawArea.Size (padX p da)))
                   (Point.Y (DrawArea.Size (padY p da))))).
Proof.
  assert (HY : padY p (padX p da)
               = DrawArea.mk (DrawArea.Canvas da)
                   (Rect.mk
                      (Point.mk (Point.X (DrawArea.Min (padX p da)))
                                (Point.Y (DrawArea.Min (padY p da))))
                      (Point.mk (Point.X (DrawArea.Size (padX p da)))
                                (Point.Y (DrawArea.Size (padY p da)))))).
  { rewrite (padY_unfold p (padX p da)), (padY_unfold p da).
    unfold padY_miny, padY_maxy, padY_bottom, padY_top.
    destruct (vertical_selection_ext (padX p da) da (GlyphBoxes p)) as [-> _];
      [reflexivity | reflexivity |].
    destruct (vertical_selection_ext (padX p da) da
                (GlyphBoxes p ++ verticalAxis_GlyphBoxes (Y (fields p))))
      as [_ ->]; [reflexivity | reflexivity |].
    reflexivity. }
  split; [|exact HY]. rewrite HY.
  rewrite (padX_unfold p (padY p da)), (padX_unfold p da).
  unfold padX_minx, padX_maxx, padX_left, padX_right.
  destruct (horizontal_selection_ext (padY p da) da (GlyphBoxes p)) as [-> _];
    [reflexivity | reflexivity |].
  destruct (horizontal_selection_ext (padY p da) da
              (GlyphBoxes p ++ horizontalAxis_GlyphBoxes (X (fields p))))
    as [_ ->]; [reflexivity | reflexivity |].
  reflexivity.
Qed.

(** On finite values: moving the origin of the solved transform back by
    the offsets of the two selected boxes gives the two outer edges. *)
Lemma closed_form_touches (a s lx lo rx ro rs : Qc) :
  lx <> rx ->
  let minx := (Fin a - Fin lo)%f64 in
  let maxx := (Fin a + Fin s - (Fin ro + Fin rs))%f64 in
  let n := code_innerMin (Fin lx) (Fin rx) minx maxx in
  let sz := code_innerSize (Fin lx) (Fin rx) minx maxx in
  (n + Fin lx * sz + Fin lo)%f64 = Fin a /\
  (n + Fin rx * sz + Fin ro + Fin rs)%f64 = (Fin a + Fin s)%f64.
Proof.
  intros Hne minx maxx n sz. subst minx maxx n sz.
  assert (Hd : rx - lx <> 0) by (apply Qcminus_neq_0; congruence).
  assert (Hd' : lx - rx <> 0) by (apply Qcminus_neq_0; congruence).
  change (Fin a - Fin lo)%f64 with (Fin (a - lo)).
  change (Fin a + Fin s - (Fin ro + Fin rs))%f64 with (Fin (a + s - (ro + rs))).
  destruct (code_inner_finite lx rx (a - lo) (a + s - (ro + rs)) Hne) as [-> ->].
  f64_unfold. split; f_equal; field; repeat split; assumption.
Qed.

Lemma GlyphBox_finite_inv (b : GlyphBox.t) :
  GlyphBox_finite b = true ->
  exists x y mx my sx sy : Qc,
    b = GlyphBox.mk (Fin x) (Fin y)
          (Rect.mk (Point.mk (Fin mx) (Fin my)) (Point.mk (Fin sx) (Fin sy))).
Proof.
  destruct b as [x y r]. unfold GlyphBox_finite. cbn [GlyphBox.X GlyphBox.Y GlyphBox.Rect].
  intros Hf. apply andb_true_iff in Hf as [Hf Hr].
  apply andb_true_iff in Hf as [Hx Hy].
  apply Rect_finite_inv in Hr as (mx & my & sx & sy & ->).
  destruct x, y; try discriminate. eauto 10.
Qed.



(** ** The drawing sequence *)

Lemma runs_plot_loop (a : nat) (u : DrawArea.t) (l : list Plotter) (w : World)
  (Q : unit -> World -> Prop) :
  cell a u w ->
  Q tt (mkWorld (areas w) (ops w ++ map (fun d => OpPlot (PlotterId d) u) l)) ->
  runs (for_each l (fun data => v <- load a ;; emit (OpPlot (PlotterId data) v)))
    w Q.
Proof.
  revert w. induction l as [|d l IH]; intros w Hc HQ; simpl.
  - apply runs_ret. destruct w as [ar o]. simpl in HQ.
    now rewrite app_nil_r in HQ.
  - apply runs_bind. apply runs_bind. eapply runs_load; [exact Hc|].
    apply runs_emit. apply IH; [exact Hc|]. simpl.
    now rewrite <- app_assoc.
Qed.

(** [Draw] run on a valid pointer: the plot it leaves and the canvas
    operations it appends. *)
Lemma Draw_runs_sequence `{External} (p : Plot) (da : nat) (v : DrawArea.t)
  (w : World) :
  cell da v w ->
  runs (Draw p da) w
    (fun p' w' =>
       p' = sanitized p /\
       ops w'
       = ops w ++ background_ops p v ++ title_ops p v ++ axes_ops p v
         ++ map (fun d => OpPlot (PlotterId d) (data_area p v)) (plotters p)
         ++ [OpLegendDraw (data_area p v)]).
Proof.
  intros Hc.
  unfold Draw, background_ops, title_ops, axes_ops, data_area,
    area_below_title, sanitized, title_height.
  destruct (BackgroundColor (fields p));
    destruct (String.eqb (Title.Text (Title (fields p))) EmptyString);
    cbv zeta; repeat run_step;
    (eapply runs_plot_loop; [cbn [areas ops]; solve [eauto 10 with draw]|]);
    repeat run_step;
    (split; [reflexivity|]);
    cbn [ops areas plotters fields]; repeat rewrite <- app_assoc; reflexivity.
Qed.

(** X11. The drawing sequence.  On a valid pointer [Draw] returns the plot
    with both ranges sanitized and sends to the canvas, after what was
    there and in this order: the background fill (when a colour is set),
    the title (when there is a text, placed on the area as it was before
    the title's height is taken off), the x axis, the y axis, every
    registered plotter in registration order, and the legend last.  All
    plotters and the legend receive one and the same region,
    [padY(p, padX(p, da.crop(ywidth, xheight, 0, 0)))]; the x axis is drawn
    on the region padded horizontally only, the y axis on the region padded
    vertically only. *)
Theorem Draw_sequence `{External} (p : Plot) (da : nat) (v : DrawArea.t)
  (w : World) :
  cell da v w ->
  exists w',
    Draw p da w = Some (sanitized p, w') /\
    ops w'
    = ops w ++ background_ops p v ++ title_ops p v ++ axes_ops p v
      ++ map (fun d => OpPlot (PlotterId d) (data_area p v)) (plotters p)
      ++ [OpLegendDraw (data_area p v)].
Proof.
  intros Hc.
  destruct (Draw_runs_sequence p da v w Hc) as (p' & w' & HD & -> & Hops).
  exists w'. split; assumption.
Qed.

(** The plot titled "T" has two plotters: eight operations reach the
    canvas, the two plotters in order on the same region, the legend last. *)
Lemma Draw_sequence_witness :
  exists w' r,
    @Draw plain_external (titled_plot "T") 0 (mkWorld [region 0 0 300 200] [])
    = Some (titled_plot "T", w') /\
    List.length (ops w') = 8%nat /\
    skipn 5 (ops w') = [OpPlot 0 r; OpPlot 1 r; OpLegendDraw r].
Proof.
  destruct (@Draw_sequence plain_external (titled_plot "T") 0
              (region 0 0 300 200) (mkWorld [region 0 0 300 200] []) eq_refl)
    as (w' & HD & Hops).
  exists w', (@data_area plain_external (titled_plot "T") (region 0 0 300 200)).
  split; [exact HD|]. rewrite Hops. split; reflexivity.
Defined.

(** ** Save: errors and the plot *)



(** ** NominalX and NominalY *)

Lemma set_nth_app_length {T : Type} (done rest : list T) (x y : T) :
  set_nth (List.length done) y (done ++ x :: rest) = done ++ y :: rest.
Proof. induction done as [|d done IH]; simpl; [reflexivity | now rewrite IH]. Qed.

Lemma nominal_ticks_loop (rest : list string) (done : list Tick) :
  fold_left
    (fun (st : nat * list Tick) (name : string) =>
       (S (fst st),
        set_nth (fst st) (mkTick (ofZ (Z.of_nat (fst st))) name) (snd st)))
    rest
    (List.length done,
     done ++ repeat (mkTick Float64.zero EmptyString) (List.length rest))
  = ((List.length done + List.length rest)%nat,
     done ++ ticks_from (List.length done) rest).
Proof.
  revert done. induction rest as [|name rest IH]; intros done; simpl.
  - now rewrite Nat.add_0_r.
  - rewrite set_nth_app_length.
    replace (done ++ mkTick (ofZ (Z.of_nat (List.length done))) name
               :: repeat (mkTick Float64.zero EmptyString) (List.length rest))
      with ((done ++ [mkTick (ofZ (Z.of_nat (List.length done))) name])
              ++ repeat (mkTick Float64.zero EmptyString) (List.length rest))
      by (now rewrite <- app_assoc).
    replace (S (List.length done))
      with (List.length (done ++ [mkTick (ofZ (Z.of_nat (List.length done))) name]))
      by (rewrite length_app; simpl; lia).
    rewrite IH. rewrite length_app. simpl. rewrite <- app_assoc. simpl.
    rewrite Nat.add_1_r. f_equal. lia.
Qed.

(** The loop fills every slot: tick [i] has value [i] and the [i]-th name. *)
Lemma nominal_ticks_from (names : list string) :
  nominal_ticks names = ticks_from 0 names.
Proof.
  unfold nominal_ticks.
  pose proof (nominal_ticks_loop names []) as H. simpl in H.
  now rewrite H.
Qed.

Lemma ticks_from_nth (names : list string) (k i : nat) (name : string) :
  nth_error names i = Some name ->
  nth_error (ticks_from k names) i = Some (mkTick (ofZ (Z.of_nat (k + i))) name).
Proof.
  revert k i. induction names as [|n names IH]; intros k [|i]; simpl;
    try discriminate.
  - intros [= ->]. now rewrite Nat.add_0_r.
  - intros Hi. rewrite (IH (S k) i Hi). do 3 f_equal. lia.
Qed.

Lemma ticks_from_length (names : list string) (k : nat) :
  List.length (ticks_from k names) = List.length names.
Proof. revert k. induction names; intros k; simpl; auto. Qed.

Lemma ticks_from_labels (names : list string) (k : nat) :
  map TickLabel (ticks_from k names) = names.
Proof. revert k. induction names; intros k; simpl; [|rewrite IHnames]; auto. Qed.

(** X13. [NominalX].  The call panics exactly when no name is given (the
    first name is read for the padding).  In both cases the x axis has
    lost its line and its tick marks ([Width], [Tick.Width], [Tick.Length]
    are 0), and the tick label style, the y axis' line fields, the ranges,
    the title, the x padding and the plotters are as before.  When names
    are given, the padding of the y axis is half the width of the first
    name in the x tick label style, and the x marker is [ConstantTicks] of
    as many ticks as names, the [i]-th with value [i] and the [i]-th name
    as label.  When it panics the y padding and the marker are unchanged. *)
Theorem NominalX_effect `{TextWidth} (sp : StyledPlot) (names : list string) :
  let o := NominalX sp names in
  let sp' := state_of o in
  (o = Returned sp' <-> names <> []) /\
  (o = Panicked sp' <-> names = []) /\
  AxisLine.Width (XLine sp') = Float64.zero /\
  AxisLine.TickWidth (XLine sp') = Float64.zero /\
  AxisLine.TickLength (XLine sp') = Float64.zero /\
  AxisLine.TickLabel (XLine sp') = AxisLine.TickLabel (XLine sp) /\
  YLine sp' = YLine sp /\
  plotters (base sp') = plotters (base sp) /\
  Title (fields (base sp')) = Title (fields (base sp)) /\
  X (fields (base sp')) = X (fields (base sp)) /\
  Axis.Min (Y (fields (base sp'))) = Axis.Min (Y (fields (base sp))) /\
  Axis.Max (Y (fields (base sp'))) = Axis.Max (Y (fields (base sp))) /\
  (names = [] ->
   AxisLine.TickMarker (XLine sp') = AxisLine.TickMarker (XLine sp) /\
   Axis.Padding (Y (fields (base sp'))) = Axis.Padding (Y (fields (base sp)))) /\
  (forall first, hd_error names = Some first ->
   Axis.Padding (Y (fields (base sp')))
   = (TextStyle_Width (AxisLine.TickLabel (XLine sp)) first / ofZ 2)%f64 /\
   exists ticks,
     AxisLine.TickMarker (XLine sp') = ConstantTicks ticks /\
     List.length ticks = List.length names /\
     map TickLabel ticks = names /\
     forall i name, nth_error names i = Some name ->
       nth_error ticks i = Some (mkTick (ofZ (Z.of_nat i)) name)).
Proof.
  unfold NominalX. destruct names as [|first names]; cbv zeta; simpl.
  - repeat split; try congruence; try discriminate; auto.
  - repeat split; try congruence; try discriminate; auto.
    exists (nominal_ticks (first :: names)).
    rewrite nominal_ticks_from.
    split; [reflexivity|]. split; [apply ticks_from_length|].
    split; [apply ticks_from_labels|].
    intros i name Hi. apply (ticks_from_nth (first :: names) 0 i name Hi).
Qed.

(** The three categories "a", "b", "c" on the x axis. *)
Lemma NominalX_effect_witness :
  let sp' := state_of (@NominalX plain_width (styled empty_plot)
                         ["a"; "b"; "c"]%string) in
  AxisLine.TickMarker (XLine sp')
  = ConstantTicks [mkTick (ofZ 0) "a"; mkTick (ofZ 1) "b"; mkTick (ofZ 2) "c"] /\
  AxisLine.TickLength (XLine sp') = Float64.zero /\
  Axis.Padding (Y (fields (base sp'))) = ofZ 3.
Proof.
  intros sp'.
  destruct (@NominalX_effect plain_width (styled empty_plot) ["a"; "b"; "c"]%string)
    as (_ & _ & _ & _ & HL & _ & _ & _ & _ & _ & _ & _ & _ & Hnames).
  destruct (Hnames "a"%string eq_refl) as (Hpad & ticks & Hm & Hlen & _ & Hnth).
  fold sp' in HL, Hpad, Hm.
  split; [|split; [exact HL|]].
  - rewrite Hm. f_equal.
    pose proof (Hnth 0%nat "a"%string eq_refl) as H0.
    pose proof (Hnth 1%nat "b"%string eq_refl) as H1.
    pose proof (Hnth 2%nat "c"%string eq_refl) as H2.
    destruct ticks as [|t0 [|t1 [|t2 [|t3 ticks]]]]; try discriminate Hlen.
    simpl in H0, H1, H2. congruence.
  - rewrite Hpad. apply eqb_eq. vm_compute. reflexivity.
Defined.

(** X14. [NominalY], the mirror of [NominalX]: it panics exactly when no
    name is given; the y axis loses its line and tick marks; with names,
    the padding of the x axis becomes half the height of the first name in
    the y tick label style and the y marker is [ConstantTicks] of one tick
    per name, tick [i] with value [i] and the [i]-th name; the x axis' line
    fields, the ranges, the title, the y padding and the plotters are as
    before. *)
Theorem NominalY_effect `{External} (sp : StyledPlot) (names : list string) :
  let o := NominalY sp names in
  let sp' := state_of o in
  (o = Returned sp' <-> names <> []) /\
  (o = Panicked sp' <-> names = []) /\
  AxisLine.Width (YLine sp') = Float64.zero /\
  AxisLine.TickWidth (YLine sp') = Float64.zero /\
  AxisLine.TickLength (YLine sp') = Float64.zero /\
  AxisLine.TickLabel (YLine sp') = AxisLine.TickLabel (YLine sp) /\
  XLine sp' = XLine sp /\
  plotters (base sp') = plotters (base sp) /\
  Title (fields (base sp')) = Title (fields (base sp)) /\
  Y (fields (base sp')) = Y (fields (base sp)) /\
  Axis.Min (X (fields (base sp'))) = Axis.Min (X (fields (base sp))) /\
  Axis.Max (X (fields (base sp'))) = Axis.Max (X (fields (base sp))) /\
  (names = [] ->
   AxisLine.TickMarker (YLine sp') = AxisLine.TickMarker (YLine sp) /\
   Axis.Padding (X (fields (base sp'))) = Axis.Padding (X (fields (base sp)))) /\
  (forall first, hd_error names = Some first ->
   Axis.Padding (X (fields (base sp')))
   = (TextStyle_Height (AxisLine.TickLabel (YLine sp)) first / ofZ 2)%f64 /\
   exists ticks,
     AxisLine.TickMarker (YLine sp') = ConstantTicks ticks /\
     List.length ticks = List.length names /\
     map TickLabel ticks = names /\
     forall i name, nth_error names i = Some name ->
       nth_error ticks i = Some (mkTick (ofZ (Z.of_nat i)) name)).
Proof.
  unfold NominalY. destruct names as [|first names]; cbv zeta; simpl.
  - repeat split; try congruence; try discriminate; auto.
  - repeat split; try congruence; try discriminate; auto.
    exists (nominal_ticks (first :: names)).
    rewrite nominal_ticks_from.
    split; [reflexivity|]. split; [apply ticks_from_length|].
    split; [apply ticks_from_labels|].
    intros i name Hi. apply (ticks_from_nth (first :: names) 0 i name Hi).
Qed.

(** Two categories on the y axis; the label height is 10. *)
Lemma NominalY_effect_witness :
  let sp' := state_of (@NominalY plain_external (styled empty_plot)
                         ["low"; "high"]%string) in
  AxisLine.TickMarker (YLine sp')
  = ConstantTicks [mkTick (ofZ 0) "low"; mkTick (ofZ 1) "high"] /\
  Axis.Padding (X (fields (base sp'))) = ofZ 5.
Proof.
  intros sp'.
  destruct (@NominalY_effect plain_external (styled empty_plot)
              ["low"; "high"]%string)
    as (_ & _ & _ & _ & _ & _ & _ & _ & _ & _ & _ & _ & _ & Hnames).
  destruct (Hnames "low"%string eq_refl) as (Hpad & ticks & Hm & Hlen & _ & Hnth).
  fold sp' in Hpad, Hm. split.
  - rewrite Hm. f_equal.
    pose proof (Hnth 0%nat "low"%string eq_refl) as H0.
    pose proof (Hnth 1%nat "high"%string eq_refl) as H1.
    destruct ticks as [|t0 [|t1 [|t2 ticks]]]; try discriminate Hlen.
    simpl in H0, H1. congruence.
  - rewrite Hpad. apply eqb_eq. vm_compute. reflexivity.
Defined.

(* ------------------------------------------------------------------ *)
(** ** Transforms *)

Lemma fadd_comm (x y : float64) : (x + y)%f64 = (y + x)%f64.
Proof. destruct x, y; simpl; try reflexivity. f_equal. ring. Qed.

(** Normalization of the value at the fraction [t] of a finite range with
    two distinct ends. *)
Lemma Axis_Norm_affine (ax : Axis.t) (a b t : Qc) :
  Axis.Min ax = Fin a -> Axis.Max ax = Fin b -> a <> b ->
  Axis_Norm ax (Fin (a + t * (b - a))) = Fin t.
Proof.
  intros Ha Hb Hab. unfold Axis_Norm. rewrite Ha, Hb.
  cbn [fsub fopp fadd fdiv].
  assert (Hne : b + - a <> 0).
  { intros F. apply Hab. symmetry.
    replace b with (b + - a + a) by ring. rewrite F. ring. }
  rewrite (Qceqb_false _ _ Hne). f_equal. field. exact Hne.
Qed.

Lemma Axis_Norm_Min (ax : Axis.t) (a b : Qc) :
  Axis.Min ax = Fin a -> Axis.Max ax = Fin b -> a <> b ->
  Axis_Norm ax (Fin a) = Float64.zero.
Proof.
  intros Ha Hb Hab.
  transitivity (Axis_Norm ax (Fin (a + 0 * (b - a)))).
  - do 2 f_equal. ring.
  - exact (Axis_Norm_affine ax a b 0 Ha Hb Hab).
Qed.

Lemma Axis_Norm_Max (ax : Axis.t) (a b : Qc) :
  Axis.Min ax = Fin a -> Axis.Max ax = Fin b -> a <> b ->
  Axis_Norm ax (Fin b) = Float64.one.
Proof.
  intros Ha Hb Hab.
  transitivity (Axis_Norm ax (Fin (a + 1 * (b - a)))).
  - do 2 f_equal. ring.
  - exact (Axis_Norm_affine ax a b 1 Ha Hb Hab).
Qed.

Lemma Qcinv_pos (z : Qc) : 0 < z -> 0 < / z.
Proof.
  unfold Qclt. intros H.
  change (this (/ z)) with (Qred (/ this z)). rewrite Qred_correct.
  apply Qinv_lt_0_compat. exact H.
Qed.

(** Normalization keeps the order of two values when [Min < Max]. *)
Lemma Axis_Norm_increasing (ax : Axis.t) (a b u v : Qc) :
  Axis.Min ax = Fin a -> Axis.Max ax = Fin b -> a < b -> u < v ->
  exists s t : Qc,
    Axis_Norm ax (Fin u) = Fin s /\ Axis_Norm ax (Fin v) = Fin t /\ s < t.
Proof.
  intros Ha Hb Hab Huv. unfold Axis_Norm. rewrite Ha, Hb.
  cbn [fsub fopp fadd fdiv].
  assert (Hpos : 0 < b + - a) by qc_lra.
  assert (Hne : b + - a <> 0).
  { intros F. rewrite F in Hpos. exact (Qclt_not_le _ _ Hpos (Qcle_refl 0)). }
  rewrite (Qceqb_false _ _ Hne).
  eexists _, _. split; [reflexivity|]. split; [reflexivity|].
  unfold Qcdiv. apply Qcmult_lt_compat_r.
  - apply Qcinv_pos. exact Hpos.
  - qc_lra.
Qed.

(** With [Min = Max] normalization has no finite value. *)
Lemma Axis_Norm_degenerate (ax : Axis.t) (a : Qc) (x : float64) :
  Axis.Min ax = Fin a -> Axis.Max ax = Fin a ->
  is_finite (Axis_Norm ax x) = false.
Proof.
  intros Ha Hb. unfold Axis_Norm. rewrite Ha, Hb.
  replace (Fin a - Fin a)%f64 with Float64.zero.
  - apply fdiv_zero_not_finite.
  - unfold fsub, Float64.zero. simpl. f_equal. ring.
Qed.

(** A region coordinate at a fraction that is not finite is not finite. *)
Lemma coordinate_not_finite (m s f : float64) :
  is_finite f = false -> is_finite (m + f * s)%f64 = false.
Proof.
  intros Hf. destruct f; try discriminate;
    destruct s as [q | | |]; try (destruct m; reflexivity);
    unfold fmul; cbn [sign]; destruct (q ?= 0); destruct m; reflexivity.
Qed.

(** Two closed rationals differ. *)
Ltac qc_differ :=
  let F := fresh in
  intros F; apply (f_equal this) in F; vm_compute in F; discriminate F.



(** A region coordinate grows with the fraction when the size is positive. *)
Lemma coordinate_increasing (m sz s t : Qc) :
  0 < sz -> s < t -> (Fin m + Fin s * Fin sz <? Fin m + Fin t * Fin sz)%f64 = true.
Proof.
  intros Hsz Hst. cbn [fadd fmul flt]. apply Qcltb_true.
  pose proof (Qcmult_lt_compat_r s t sz Hsz Hst) as H. qc_lra.
Qed.



(** X17. A range of a single value has no transform.  When [Min] and [Max]
    of an axis are the same finite number, [Transforms] does not fail and
    its function for that axis returns, for every argument and every region,
    a coordinate that is not finite ([+Inf], [-Inf] or [NaN]). *)
Theorem Transforms_degenerate_range (p : Plot) (da : DrawArea.t) :
  (forall a : Qc,
     Axis.Min (X (fields p)) = Fin a -> Axis.Max (X (fields p)) = Fin a ->
     forall x, is_finite (fst (Transforms p da) x) = false) /\
  (forall c : Qc,
     Axis.Min (Y (fields p)) = Fin c -> Axis.Max (Y (fields p)) = Fin c ->
     forall y, is_finite (snd (Transforms p da) y) = false).
Proof.
  unfold Transforms, DrawArea.X, DrawArea.Y. cbn [fst snd].
  split; intros a Ha Hb x; apply coordinate_not_finite;
    apply (Axis_Norm_degenerate _ a x Ha Hb).
Qed.

(** Both axes of the plot hold the single value 3: the value 3 itself has
    no finite device coordinate. *)
Lemma Transforms_degenerate_range_witness :
  is_finite (fst (Transforms point_plot (region 0 0 300 200)) (ofZ 3)) = false /\
  is_finite (snd (Transforms point_plot (region 0 0 300 200)) (ofZ 5)) = false.
Proof.
  destruct (Transforms_degenerate_range point_plot (region 0 0 300 200))
    as (Hx & Hy).
  split.
  - exact (Hx (Q2Qc (inject_Z 3)) eq_refl eq_refl (ofZ 3)).
  - exact (Hy (Q2Qc (inject_Z 3)) eq_refl eq_refl (ofZ 5)).
Defined.

(* ------------------------------------------------------------------ *)
(** ** DrawGlyphBoxes *)

Lemma outline_edges (da : DrawArea.t) (b : GlyphBox.t) :
  Point.X (Rect.Min (outline da b)) = left_edge da b /\
  Point.X (Rect.Max (outline da b)) = right_edge da b /\
  Point.Y (Rect.Min (outline da b)) = bottom_edge da b /\
  Point.Y (Rect.Max (outline da b)) = top_edge da b /\
  Rect.Size (outline da b) = GlyphBox.Size b.
Proof.
  unfold outline, left_edge, right_edge, bottom_edge, top_edge, Rect.Max.
  cbn [Rect.Min Rect.Size Point.X Point.Y].
  rewrite (fadd_comm (Point.X (GlyphBox.Min b))),
          (fadd_comm (Point.Y (GlyphBox.Min b))).
  repeat split; reflexivity.
Qed.

(** X18. The debugging outlines are the rectangles the padding measures.
    [DrawGlyphBoxes] sets the colour to opaque red once and then strokes one
    rectangle per glyph box of the plotters, in the order of [GlyphBoxes];
    each rectangle has the size of its box and its four sides are the left,
    right, bottom and top edges that [leftMost], [rightMost], [bottomMost]
    and [topMost] compare on the same region.  The glyph boxes of the axes
    are not outlined: without plotters only the colour is set. *)
Theorem DrawGlyphBoxes_outlines (p : Plot) (da : DrawArea.t) :
  exists rs : list Rect.t,
    DrawGlyphBoxes p da
    = OutlineColor (RGBA 255 0 0 255) :: map OutlineStroke rs /\
    Forall2
      (fun b r =>
         Point.X (Rect.Min r) = left_edge da b /\
         Point.X (Rect.Max r) = right_edge da b /\
         Point.Y (Rect.Min r) = bottom_edge da b /\
         Point.Y (Rect.Max r) = top_edge da b /\
         Rect.Size r = GlyphBox.Size b)
      (GlyphBoxes p) rs /\
    (plotters p = [] -> DrawGlyphBoxes p da = [OutlineColor (RGBA 255 0 0 255)]).
Proof.
  exists (map (outline da) (GlyphBoxes p)). split; [|split].
  - unfold DrawGlyphBoxes. now rewrite map_map.
  - induction (GlyphBoxes p) as [|b bs IH]; simpl; constructor.
    + apply outline_edges.
    + exact IH.
  - intros Hp. unfold DrawGlyphBoxes, GlyphBoxes. now rewrite Hp.
Qed.

(* ------------------------------------------------------------------ *)
(** ** New *)

(** What [New] returns when it returns a plot. *)
Lemma New_inl `{Constructors} (p : Plot) :
  New = inl p ->
  exists titleFont x y,
    vg_MakeFont defaultFont (ofZ 12) = inl titleFont /\
    makeAxis 0 = inl x /\ makeAxis 1 = inl y /\
    p = mkPlot (mkPlotFields (Title.mk EmptyString (mkTextStyle Black titleFont))
                  (Some White) x y) [].
Proof.
  unfold New.
  destruct (vg_MakeFont defaultFont (ofZ 12)) as [f|]; [|discriminate].
  destruct (makeAxis 0) as [x|]; [|discriminate].
  destruct (makeAxis 1) as [y|]; [|discriminate].
  destruct makeLegend; [|discriminate].
  intros E. injection E as <-. eauto 10.
Qed.

(** X19. A new plot draws a background, two axes and a legend.  When [New]
    returns a plot, the plot has no glyph box, and [Draw] on a valid pointer
    returns, leaves the caller's area exactly as it was (there is no title
    to make room for), and sends to the canvas the white background fill of
    the whole area, the x axis, the y axis and the legend, and nothing
    else; when [New] returns an error it is the error of the first call
    that failed, in the order title font, x axis, y axis, legend. *)
Theorem New_plot_draws_bare `{Constructors} `{External} :
  (forall (p : Plot) (da : nat) (v : DrawArea.t) (w : World),
     New = inl p -> cell da v w ->
     GlyphBoxes p = [] /\
     exists w',
       Draw p da w = Some (sanitized p, w') /\
       cell da v w' /\
       ops w'
       = ops w ++ [OpSetColor White; OpFill (DrawArea.Rect v)]
         ++ axes_ops p v ++ [OpLegendDraw (data_area p v)]) /\
  (forall e : error,
     New = inr e <->
     vg_MakeFont defaultFont (ofZ 12) = inr e \/
     (exists f, vg_MakeFont defaultFont (ofZ 12) = inl f) /\
     (makeAxis 0 = inr e \/
      (exists x, makeAxis 0 = inl x) /\
      (makeAxis 1 = inr e \/
       (exists y, makeAxis 1 = inl y) /\ makeLegend = inr e))).
Proof.
  split.
  - intros p da v w HN Hc.
    apply New_inl in HN as (f & x & y & _ & _ & _ & Hp).
    split; [rewrite Hp; reflexivity|].
    destruct (Draw_runs_sequence p da v w Hc) as (p1 & w1 & HD1 & -> & Hops).
    destruct (Draw_runs p da v w Hc) as (p2 & w2 & HD2 & Hcell & _).
    rewrite HD1 in HD2. injection HD2 as _ <-.
    exists w1. split; [exact HD1|]. rewrite Hops. clear HD1 Hops.
    subst p. split; [exact Hcell | reflexivity].
  - intros e. unfold New.
    destruct (vg_MakeFont defaultFont (ofZ 12)) as [f|e0].
    + destruct (makeAxis 0) as [x|e1].
      * destruct (makeAxis 1) as [y|e2].
        -- destruct makeLegend as [l|e3]; split.
           ++ discriminate.
           ++ intros [F | (_ & [F | (_ & [F | (_ & F)])])]; discriminate.
           ++ intros E. injection E as <-. right. split; [eauto|].
              right. split; [eauto|]. right. split; [eauto|]. reflexivity.
           ++ intros [F | (_ & [F | (_ & [F | (_ & F)])])];
                try discriminate. now injection F as <-.
        -- split.
           ++ intros E. injection E as <-. right. split; [eauto|].
              right. split; [eauto|]. now left.
           ++ intros [F | (_ & [F | (_ & [F | ((y & F) & _)])])];
                try discriminate. now injection F as <-.
      * split.
        -- intros E. injection E as <-. right. split; [eauto|]. now left.
        -- intros [F | (_ & [F | ((x & F) & _)])]; try discriminate.
           now injection F as <-.
    + split.
      * intros E. injection E as <-. now left.
      * intros [F | ((f & F) & _)]; try discriminate. now injection F as <-.
Qed.

(** With constructors that succeed the new plot draws four operations; when
    the second axis cannot be made, [New] returns that error and not the
    legend's. *)
Lemma New_plot_draws_bare_witness :
  (exists p w',
     @New plain_constructors = inl p /\
     @Draw plain_external p 0 (mkWorld [region 0 0 300 200] []) = Some (p, w') /\
     cell 0 (region 0 0 300 200) w' /\
     List.length (ops w') = 5%nat) /\
  @New second_axis_fails = inr (BackendError 7).
Proof.
  split.
  - destruct (@New_plot_draws_bare plain_constructors plain_external) as (HD & _).
    destruct (HD empty_plot 0%nat (region 0 0 300 200)
                (mkWorld [region 0 0 300 200] []) eq_refl eq_refl)
      as (_ & w' & HDraw & Hcell & Hops).
    exists empty_plot, w'. split; [reflexivity|]. split; [exact HDraw|].
    split; [exact Hcell|]. rewrite Hops. reflexivity.
  - destruct (@New_plot_draws_bare second_axis_fails plain_external) as (_ & HE).
    apply (HE (BackendError 7)). right. split; [eexists; reflexivity|].
    right. split; [eexists; reflexivity|]. left. reflexivity.
Defined.

(* ------------------------------------------------------------------ *)
(** ** NominalX and NominalY together *)

(** X20. The two nominal configurations are independent.  With a name on
    each side, calling [NominalX] and then [NominalY] returns the same plot
    as calling [NominalY] and then [NominalX]: each call writes the line
    fields of its own axis and the padding of the other axis, and reads
    nothing the other call writes. *)
Theorem Nominal_calls_commute `{TextWidth} `{External} (sp : StyledPlot)
  (xs ys : list string) :
  xs <> [] -> ys <> [] ->
  exists s1 s2 s,
    NominalX sp xs = Returned s1 /\ NominalY s1 ys = Returned s /\
    NominalY sp ys = Returned s2 /\ NominalX s2 xs = Returned s.
Proof.
  intros Hx Hy.
  destruct xs as [|x xs]; [contradiction|]. destruct ys as [|y ys]; [contradiction|].
  destruct sp as [[f pl] xl yl]. destruct f as [tt bg ax ay].
  eexists _, _, _. unfold NominalX, NominalY. cbv zeta.
  cbn [base XLine YLine fields plotters set_fields set_X set_Y X Y Title
       BackgroundColor set_Padding AxisLine.Width AxisLine.TickWidth
       AxisLine.TickLength AxisLine.TickLabel AxisLine.TickMarker].
  repeat split; reflexivity.
Qed.

(** Three names on the x axis and two on the y axis, in either order. *)
Lemma Nominal_calls_commute_witness :
  exists s1 s2 s,
    @NominalX plain_width (styled empty_plot) ["a"; "bb"; "c"]%string = Returned s1 /\
    @NominalY plain_external s1 ["low"; "high"]%string = Returned s /\
    @NominalY plain_external (styled empty_plot) ["low"; "high"]%string = Returned s2 /\
    @NominalX plain_width s2 ["a"; "bb"; "c"]%string = Returned s.
Proof.
  apply (@Nominal_calls_commute plain_width plain_external (styled empty_plot)
           ["a"; "bb"; "c"]%string ["low"; "high"]%string);
    discriminate.
Defined.
